(** * PsyCanvas backend: request validation, prompt construction,
      failure classification and document ingestion

    A shallow embedding of [server.js] (the [POST /api/chat] handler with its
    Joi schema, prompt template, timeout race and catch block, the CORS
    policy, and the handler of the earlier revision) and of [seed.js] (the
    paragraph chunker and the upload loop of the ingestion script).

    Conventions of the embedding.
    - A JavaScript string is the list of its UTF-16 code units, so that
      [String.prototype.length] is [length].
    - [req.body] is what [express.json()] leaves there in its default strict
      mode: a parsed JSON object or array.  An object is the list of its own
      properties in [Object.keys] order (distinct keys, plain data
      properties); a property that is absent reads as [undefined], modelled
      by [None].
    - Joi is modelled as a small combinator library following the steps of
      its validator ([abortEarly: false]): presence, allowed values, base
      type, rules, defaults; object keys in declaration order, then unknown
      keys.
    - The handler is a state machine over the events of the race between the
      remote call and the timer; what it does to the outside world is
      recorded as a list of effects.  Logging is not modelled. *)

From Stdlib Require Import Strings.String Strings.Ascii.
From Stdlib Require Import Numbers.DecimalString Numbers.DecimalNat.
From Stdlib Require Import Bool Arith NArith ZArith QArith Lia List.
Import ListNotations.

Local Open Scope list_scope.
Local Open Scope nat_scope.

(* ================================================================== *)
(** ** JavaScript strings *)

(** A string is a sequence of UTF-16 code units. *)
Definition jsstring := list N.

(** An ASCII literal of the source text. *)
Fixpoint lit (s : string) : jsstring :=
  match s with
  | EmptyString => []
  | String c r => N_of_ascii c :: lit r
  end.

(** The double quote, U+0022. *)
Definition dq : jsstring := [34%N].

(** The line feed, U+000A. *)
Definition lf : jsstring := [10%N].

Fixpoint str_eqb (a b : jsstring) : bool :=
  match a, b with
  | [], [] => true
  | x :: a', y :: b' => N.eqb x y && str_eqb a' b'
  | _, _ => false
  end.

(** [s.startsWith(p)] *)
Fixpoint starts_with (p s : jsstring) : bool :=
  match p, s with
  | [], _ => true
  | _ :: _, [] => false
  | x :: p', y :: s' => N.eqb x y && starts_with p' s'
  end.

(** [s.endsWith(p)] *)
Definition ends_with (p s : jsstring) : bool := starts_with (rev p) (rev s).

(** [s.includes(p)] *)
Fixpoint includes (p s : jsstring) : bool :=
  match s with
  | [] => starts_with p []
  | _ :: s' => starts_with p s || includes p s'
  end.

(** White space and line terminators of ECMAScript, as removed by
    [String.prototype.trim]. *)
Definition is_white_space (c : N) : bool :=
  ((9 <=? c) && (c <=? 13) || (c =? 32) || (c =? 160) || (c =? 5760)
   || (8192 <=? c) && (c <=? 8202) || (c =? 8232) || (c =? 8233)
   || (c =? 8239) || (c =? 8287) || (c =? 12288) || (c =? 65279))%N.

Fixpoint trim_start (s : jsstring) : jsstring :=
  match s with
  | [] => []
  | c :: r => if is_white_space c then trim_start r else s
  end.

Definition trim_end (s : jsstring) : jsstring := rev (trim_start (rev s)).

(** [s.trim()] *)
Definition trim (s : jsstring) : jsstring := trim_end (trim_start s).

(** [parts.join(sep)] on an array of strings. *)
Fixpoint join (sep : jsstring) (parts : list jsstring) : jsstring :=
  match parts with
  | [] => []
  | [p] => p
  | p :: rest => p ++ sep ++ join sep rest
  end.

(** Decimal rendering of an array index, as in a template literal. *)
Definition of_nat (n : nat) : jsstring := lit (NilEmpty.string_of_uint (Nat.to_uint n)).

(** [s.split(sep)] for a non-empty separator: [cur] holds the current
    fragment in reverse, [skip] the code units of a matched separator
    still to pass over. *)
Fixpoint split_from (sep : jsstring) (skip : nat) (cur : jsstring) (s : jsstring) : list jsstring :=
  match s with
  | [] => [rev cur]
  | c :: r =>
      match skip with
      | S k => split_from sep k cur r
      | O =>
          if starts_with sep s
          then rev cur :: split_from sep (length sep - 1) [] r
          else split_from sep 0 (c :: cur) r
      end
  end.

Definition split (sep s : jsstring) : list jsstring := split_from sep 0 [] s.


(* ================================================================== *)
(** ** JSON values and request bodies *)

#[warnings="-register-all"]
Inductive json : Type :=
| JNull
| JBool (b : bool)
| JNum (x : Q)
| JStr (s : jsstring)
| JArr (items : list json)
| JObj (fields : list (jsstring * json)).

(** [req.body] after [express.json()]. *)
Inductive ReqBody : Type :=
| BObject (fields : list (jsstring * json))
| BArray (items : list json).

(** [obj[key]]: the first binding of [key], [None] for [undefined]. *)
Fixpoint lookup {A : Type} (key : jsstring) (fields : list (jsstring * A)) : option A :=
match fields with
| [] => None
| (k, v) :: rest => if str_eqb k key then Some v else lookup key rest
end.

(** [list.includes(key)] *)
Definition mem (key : jsstring) (l : list jsstring) : bool :=
existsb (str_eqb key) l.

(* ================================================================== *)
(** ** The Joi validator, for the schema types the server uses *)

Module Joi.

(** Error codes of the string, array and object types. *)
Inductive Code : Type :=
| AnyRequired | AnyOnly
| StringBase | StringEmpty | StringMin | StringMax
| ArrayBase | ArraySparse | ArrayMax
| ObjectBase | ObjectUnknown.

Definition code_id (c : Code) : nat :=
  match c with
  | AnyRequired => 0 | AnyOnly => 1
  | StringBase => 2 | StringEmpty => 3 | StringMin => 4 | StringMax => 5
  | ArrayBase => 6 | ArraySparse => 7 | ArrayMax => 8
  | ObjectBase => 9 | ObjectUnknown => 10
  end.

Definition code_eqb (a b : Code) : bool := Nat.eqb (code_id a) (code_id b).

(** A path into the validated value: object keys and array positions. *)
Inductive Segment : Type :=
| Key (k : jsstring)
| Index (i : nat).

Definition Path := list Segment.

(** The dotted rendering of a path: [materials[3]], [a.b]. *)
Fixpoint path_text (acc : jsstring) (p : Path) : jsstring :=
  match p with
  | [] => acc
  | Key k :: rest =>
      path_text ((match acc with [] => [] | _ => acc ++ lit "." end) ++ k) rest
  | Index i :: rest =>
      path_text (acc ++ lit "[" ++ of_nat i ++ lit "]") rest
  end.

(** [{{#label}}]: the rendered path, or [value] when it is empty. *)
Definition label (p : Path) : jsstring :=
  match path_text [] p with
  | [] => lit "value"
  | l => l
  end.

Definition quoted (p : Path) : jsstring := dq ++ label p ++ dq.

(** The library's message templates, with the label wrapped in double
    quotes and the rule's limit or allowed values filled in. *)
Definition default_message (c : Code) (p : Path) (limit : nat)
           (valids : list jsstring) : jsstring :=
  match c with
  | AnyRequired => quoted p ++ lit " is required"
  | AnyOnly =>
      quoted p ++ lit " must be "
      ++ (match valids with [_] => [] | _ => lit "one of " end)
      ++ lit "[" ++ join (lit ", ") valids ++ lit "]"
  | StringBase => quoted p ++ lit " must be a string"
  | StringEmpty => quoted p ++ lit " is not allowed to be empty"
  | StringMin =>
      quoted p ++ lit " length must be at least " ++ of_nat limit
      ++ lit " characters long"
  | StringMax =>
      quoted p ++ lit " length must be less than or equal to "
      ++ of_nat limit ++ lit " characters long"
  | ArrayBase => quoted p ++ lit " must be an array"
  | ArraySparse => quoted p ++ lit " must not be a sparse array item"
  | ArrayMax =>
      quoted p ++ lit " must contain less than or equal to "
      ++ of_nat limit ++ lit " items"
  | ObjectBase => quoted p ++ lit " must be of type object"
  | ObjectUnknown => quoted p ++ lit " is not allowed"
  end.

(** [.messages({...})]: message overrides by code (plain text here). *)
Definition Messages := list (Code * jsstring).

Fixpoint find_message (c : Code) (m : Messages) : option jsstring :=
  match m with
  | [] => None
  | (c', text) :: rest => if code_eqb c' c then Some text else find_message c rest
  end.

(** One entry of [error.details]. *)
Record Detail : Type := mkDetail {
  code : Code;
  path : Path;
  message : jsstring
}.

Definition create_error (prefs : Messages) (c : Code) (p : Path)
           (limit : nat) (valids : list jsstring) : Detail :=
  mkDetail c p
    (match find_message c prefs with
     | Some text => text
     | None => default_message c p limit valids
     end).

(** [{ error, value }]: either the value, or the error details. *)
Inductive Outcome (A : Type) : Type :=
| Passed (value : A)
| Failed (details : list Detail).
Arguments Passed {A} value.
Arguments Failed {A} details.

(** The validator's last step: errors win over the value. *)
Definition finalize {A : Type} (value : A) (errors : list Detail) : Outcome A :=
  match errors with
  | [] => Passed value
  | _ => Failed errors
  end.

(** *** [Joi.string()] *)

Inductive StringRule : Type :=
| Rmin (limit : nat)
| Rmax (limit : nat).

Record StringSchema : Type := mkString {
  s_required : bool;                (* flag presence = required *)
  s_only : bool;                    (* flag only, set by valid() *)
  s_valids : list jsstring;         (* allowed values *)
  s_rules : list StringRule;        (* in the order they were added *)
  s_default : option jsstring;      (* flag default *)
  s_messages : Messages
}.

Definition string : StringSchema := mkString false false [] [] None [].

Definition min (n : nat) (s : StringSchema) : StringSchema :=
  mkString (s_required s) (s_only s) (s_valids s) (s_rules s ++ [Rmin n])
           (s_default s) (s_messages s).

Definition max (n : nat) (s : StringSchema) : StringSchema :=
  mkString (s_required s) (s_only s) (s_valids s) (s_rules s ++ [Rmax n])
           (s_default s) (s_messages s).

Definition required (s : StringSchema) : StringSchema :=
  mkString true (s_only s) (s_valids s) (s_rules s) (s_default s) (s_messages s).

Definition valid (vs : list jsstring) (s : StringSchema) : StringSchema :=
  mkString (s_required s) true (s_valids s ++ vs) (s_rules s)
           (s_default s) (s_messages s).

Definition default (d : jsstring) (s : StringSchema) : StringSchema :=
  mkString (s_required s) (s_only s) (s_valids s) (s_rules s) (Some d)
           (s_messages s).

Definition messages (m : Messages) (s : StringSchema) : StringSchema :=
  mkString (s_required s) (s_only s) (s_valids s) (s_rules s) (s_default s)
           (m ++ s_messages s).

(** The base type lets the empty string through only under [min(0)]. *)
Definition min_is_zero (r : StringRule) : bool :=
  match r with Rmin 0 => true | _ => false end.

(** The rules are all run; each failing one adds its error. *)
Definition string_rule_errors (prefs : Messages) (p : Path)
           (valids : list jsstring) (s : jsstring) (r : StringRule) : list Detail :=
  match r with
  | Rmin n => if n <=? length s then [] else [create_error prefs StringMin p n valids]
  | Rmax n => if length s <=? n then [] else [create_error prefs StringMax p n valids]
  end.

Definition validate_string (sch : StringSchema) (inherited : Messages)
           (p : Path) (value : option json) : Outcome (option jsstring) :=
  let prefs := s_messages sch ++ inherited in
  let err c := create_error prefs c p 0 (s_valids sch) in
  match value with
  | None =>
      (* presence *)
      if s_required sch then Failed [err AnyRequired]
      else Passed (s_default sch)
  | Some v =>
      (* allowed values: a match ends the validation *)
      let allowed :=
        match v with JStr s => mem s (s_valids sch) | _ => false end in
      let errors := if s_only sch then [err AnyOnly] else [] in
      match v with
      | JStr s =>
          if allowed then Passed (Some s)
          else
            (* base type, then rules *)
            match s with
            | [] =>
                if existsb min_is_zero (s_rules sch)
                then finalize (Some s)
                       (errors ++ flat_map (string_rule_errors prefs p (s_valids sch) s)
                                           (s_rules sch))
                else Failed (errors ++ [err StringEmpty])
            | _ =>
                finalize (Some s)
                  (errors ++ flat_map (string_rule_errors prefs p (s_valids sch) s)
                                      (s_rules sch))
            end
      | _ => Failed (errors ++ [err StringBase])
      end
  end.

(** *** [Joi.array().items(<string schema>)] *)

Record ArraySchema : Type := mkArray {
  a_items : StringSchema;           (* the single item type *)
  a_max : option nat;               (* rule max *)
  a_default : option (list jsstring);
  a_messages : Messages
}.

Definition array_items (item : StringSchema) : ArraySchema :=
  mkArray item None None [].

Definition array_max (n : nat) (a : ArraySchema) : ArraySchema :=
  mkArray (a_items a) (Some n) (a_default a) (a_messages a).

Definition array_default (d : list jsstring) (a : ArraySchema) : ArraySchema :=
  mkArray (a_items a) (a_max a) (Some d) (a_messages a).

Definition array_messages (m : Messages) (a : ArraySchema) : ArraySchema :=
  mkArray (a_items a) (a_max a) (a_default a) (m ++ a_messages a).

(** The items rule: every item is validated at its position; the values
    that pass and all the errors are kept. *)
Fixpoint validate_items (item : StringSchema) (prefs : Messages) (p : Path)
         (i : nat) (l : list json) : list jsstring * list Detail :=
  match l with
  | [] => ([], [])
  | x :: rest =>
      let (vals, errs) := validate_items item prefs p (S i) rest in
      match validate_string item prefs (p ++ [Index i]) (Some x) with
      | Passed (Some s) => (s :: vals, errs)
      | Passed None =>
          (vals, create_error prefs ArraySparse (p ++ [Index i]) 0 [] :: errs)
      | Failed es => (vals, es ++ errs)
      end
  end.

Definition validate_array (sch : ArraySchema) (inherited : Messages)
           (p : Path) (value : option json) : Outcome (option (list jsstring)) :=
  let prefs := a_messages sch ++ inherited in
  match value with
  | None => Passed (a_default sch)
  | Some (JArr l) =>
      (* items has priority over the other rules *)
      let (vals, item_errors) := validate_items (a_items sch) prefs p 0 l in
      let max_errors :=
        match a_max sch with
        | Some n => if length l <=? n then [] else [create_error prefs ArrayMax p n []]
        | None => []
        end in
      finalize (Some vals) (item_errors ++ max_errors)
  | Some _ => Failed [create_error prefs ArrayBase p 0 []]
  end.

(** *** [Joi.object({...})] *)

Inductive Schema : Type :=
| SString (s : StringSchema)
| SArray (a : ArraySchema).

(** A validated property value. *)
Inductive Value : Type :=
| VString (s : jsstring)
| VArray (l : list jsstring).

(** The declared keys, in declaration order. *)
Definition ObjectSchema := list (jsstring * Schema).

Definition validate_child (child : Schema) (p : Path) (item : option json)
  : Outcome (option Value) :=
  match child with
  | SString s =>
      match validate_string s [] p item with
      | Passed v => Passed (option_map VString v)
      | Failed es => Failed es
      end
  | SArray a =>
      match validate_array a [] p item with
      | Passed v => Passed (option_map VArray v)
      | Failed es => Failed es
      end
  end.

(** The declared keys are validated one after the other, whatever the
    earlier ones gave. *)
Fixpoint validate_keys (keys : ObjectSchema) (fields : list (jsstring * json))
  : list (jsstring * Value) * list Detail :=
  match keys with
  | [] => ([], [])
  | (key, child) :: rest =>
      let (vals, errs) := validate_keys rest fields in
      match validate_child child [Key key] (lookup key fields) with
      | Passed (Some v) => ((key, v) :: vals, errs)
      | Passed None => (vals, errs)
      | Failed es => (vals, es ++ errs)
      end
  end.

(** The own keys of the value that the schema does not declare. *)
Definition unknown_keys (keys : ObjectSchema) (fields : list (jsstring * json))
  : list jsstring :=
  filter (fun k => negb (mem k (map fst keys))) (map fst fields).

(** [schema.validate(body, { abortEarly: false })] *)
Definition validate (keys : ObjectSchema) (body : ReqBody)
  : Outcome (list (jsstring * Value)) :=
  match body with
  | BArray _ => Failed [create_error [] ObjectBase [] 0 []]
  | BObject fields =>
      let (vals, errs) := validate_keys keys fields in
      finalize vals
        (errs ++ map (fun k => create_error [] ObjectUnknown [Key k] 0 [])
                     (unknown_keys keys fields))
  end.

End Joi.

Notation "x |> f" := (f x) (at level 45, left associativity, only parsing).

(* ================================================================== *)
(** ** server.js: the schema of [POST /api/chat] *)

Definition chatSchema : Joi.ObjectSchema :=
  [ (lit "question",
     Joi.SString
       (Joi.string |> Joi.min 10 |> Joi.max 5000 |> Joi.required
        |> Joi.messages
             [ (Joi.StringBase, lit "Question must be a string");
               (Joi.StringMin, lit "Question must be at least 10 characters long");
               (Joi.StringMax, lit "Question cannot exceed 5000 characters");
               (Joi.AnyRequired, lit "Question is required") ]));
    (lit "citationStyle",
     Joi.SString
       (Joi.string |> Joi.valid [lit "apa"; lit "mla"; lit "chicago"]
        |> Joi.default (lit "apa")
        |> Joi.messages
             [ (Joi.AnyOnly, lit "Citation style must be one of: apa, mla, chicago") ]));
    (lit "citationMode",
     Joi.SString
       (Joi.string |> Joi.valid [lit "strict"; lit "balanced"; lit "flexible"]
        |> Joi.default (lit "balanced")
        |> Joi.messages
             [ (Joi.AnyOnly, lit "Citation mode must be one of: strict, balanced, flexible") ]));
    (lit "recency",
     Joi.SString
       (Joi.string |> Joi.valid [lit "5"; lit "10"; lit "15"; lit "all"]
        |> Joi.default (lit "10")
        |> Joi.messages
             [ (Joi.AnyOnly, lit "Recency must be one of: 5, 10, 15, all") ]));
    (lit "materials",
     Joi.SArray
       (Joi.array_items
          (Joi.string |> Joi.max 500
           |> Joi.messages
                [ (Joi.StringMax, lit "Each material entry cannot exceed 500 characters") ])
        |> Joi.array_max 20 |> Joi.array_default []
        |> Joi.array_messages
             [ (Joi.ArrayMax, lit "Materials cannot exceed 20 items") ])) ].

(** The five properties the handler takes out of the validated value. *)
Record ChatRequest : Type := mkChatRequest {
  question : jsstring;
  citationStyle : jsstring;
  citationMode : jsstring;
  recency : jsstring;
  materials : list jsstring
}.

Definition get_string (key : jsstring) (value : list (jsstring * Joi.Value))
  : option jsstring :=
  match lookup key value with
  | Some (Joi.VString s) => Some s
  | _ => None
  end.

Definition get_array (key : jsstring) (value : list (jsstring * Joi.Value))
  : option (list jsstring) :=
  match lookup key value with
  | Some (Joi.VArray l) => Some l
  | _ => None
  end.

(** [const { question, citationStyle, citationMode, recency, materials } = value]
    followed by the uses that need a string or an array; [None] stands for
    the [TypeError] of [question.length] or [materials.length] on
    [undefined]. *)
Definition destructure (value : list (jsstring * Joi.Value)) : option ChatRequest :=
  match get_string (lit "question") value,
        get_string (lit "citationStyle") value,
        get_string (lit "citationMode") value,
        get_string (lit "recency") value,
        get_array (lit "materials") value with
  | Some q, Some cs, Some cm, Some r, Some m => Some (mkChatRequest q cs cm r m)
  | _, _, _, _, _ => None
  end.

(* ================================================================== *)
(** ** server.js: the system prompt *)

(** [recency === 'all' ? ... : 'focus on roughly the last ' + recency + ...] *)
Definition recency_clause (r : jsstring) : jsstring :=
  if str_eqb r (lit "all")
  then lit "no hard limit, but flag older work"
  else lit "focus on roughly the last " ++ r ++ lit " years of research".

(** [materials.length ? '- User has indicated ...:\n  - ' + materials.join('\n  - ') : ...] *)
Definition materials_clause (m : list jsstring) : jsstring :=
  if 0 <? length m
  then lit "- User has indicated the following course materials:" ++ lf ++ lit "  - "
       ++ join (lf ++ lit "  - ") m
  else lit "- No specific course materials listed in this request.".

(** The template up to the first interpolation. *)
Definition prompt_goals : jsstring :=
  lit "You are PsyCanvas AI, a mental health study assistant for college-level psychology and counseling students." ++ lf
  ++ lf
  ++ lit "Goals:" ++ lf
  ++ lit "- Help users understand mental health concepts, DSM-5-TR criteria (described in your own words), case formulations, and evidence-based treatments." ++ lf
  ++ lit "- Use mental-health specific knowledge, plus the course materials the user provides (textbooks, articles)." ++ lf
  ++ lit "- Always include in-text citations and a reference list in the requested style: ".

Definition prompt_rules : jsstring :=
  lit "." ++ lf
  ++ lf
  ++ lit "Critical rules:" ++ lf
  ++ lit "- Do NOT reproduce DSM-5-TR text verbatim (paraphrase in your own words)." ++ lf
  ++ lit "- Use cautious, non-fabricated citations; if you are not sure about a reference, either omit it or clearly flag it as a suggested reading, not a precise citation." ++ lf
  ++ lf
  ++ lit "Citation style:" ++ lf
  ++ lit "- Current setting: ".

Definition prompt_strictness : jsstring :=
  lit "." ++ lf ++ lit "- Citation strictness: ".

Definition prompt_recency : jsstring :=
  lit "." ++ lf ++ lit "- Recency preference: ".

Definition prompt_materials : jsstring :=
  lit "." ++ lf
  ++ lf
  ++ lit "Course materials:" ++ lf.

(** The template after the last interpolation, without its final line feed. *)
Definition prompt_output : jsstring :=
  lf
  ++ lf
  ++ lit "Output format:" ++ lf
  ++ lit "1. Provide a clear, structured explanation or answer to the user's question." ++ lf
  ++ lit "2. Use in-text citations with author and year (and page/section if appropriate)." ++ lf
  ++ lit "3. End with a " ++ dq ++ lit "References" ++ dq
  ++ lit " section, listing the main sources you relied on, formatted as best you can in the chosen style.".

(** The template literal, from the line feed after the opening backquote to
    the one before the closing backquote, then [.trim()]. *)
Definition systemPrompt (r : ChatRequest) : jsstring :=
  trim
    (lf ++ prompt_goals ++ citationStyle r
     ++ prompt_rules ++ citationStyle r
     ++ prompt_strictness ++ citationMode r
     ++ prompt_recency ++ recency_clause (recency r)
     ++ prompt_materials ++ materials_clause (materials r)
     ++ prompt_output ++ lf).

(* ================================================================== *)
(** ** server.js: responses and the catch block *)

(** [res.status(s).json(b)] *)
Record Response : Type := mkResponse {
  status : N;
  body : json
}.

(** The properties of a thrown error that the catch block reads.  A
    property that is absent, or not of the type it is compared with, is
    [None]. *)
Record JsError : Type := mkJsError {
  err_message : option jsstring;
  err_code : option jsstring;
  err_status : option Z
}.

(** [new Error(text)] *)
Definition Error (text : jsstring) : JsError := mkJsError (Some text) None None.

(** [err.message === text] *)
Definition message_is (err : JsError) (text : jsstring) : bool :=
  match err_message err with Some m => str_eqb m text | None => false end.

(** [err.message?.includes(text)] *)
Definition message_includes (err : JsError) (text : jsstring) : bool :=
  match err_message err with Some m => includes text m | None => false end.

(** [err.code === text] *)
Definition code_is (err : JsError) (text : jsstring) : bool :=
  match err_code err with Some c => str_eqb c text | None => false end.

(** [err.status === n] *)
Definition status_is (err : JsError) (n : Z) : bool :=
  match err_status err with Some s => Z.eqb s n | None => false end.

Definition error_body (error message : jsstring) : json :=
  JObj [ (lit "error", JStr error); (lit "message", JStr message) ].

(** The catch block of the handler. *)
Definition catch_block (err : JsError) : Response :=
  if message_is err (lit "Request timeout") then
    mkResponse 408
      (error_body (lit "Request timeout")
                  (lit "The request took too long to process. Please try again."))
  else if code_is err (lit "ENOTFOUND") || code_is err (lit "ECONNREFUSED")
          || message_includes err (lit "network") then
    mkResponse 503
      (error_body (lit "Service unavailable")
                  (lit "Unable to connect to AI service. Please try again later."))
  else if status_is err 401 || message_includes err (lit "API key")
          || message_includes err (lit "authentication") then
    mkResponse 500
      (error_body (lit "Configuration error")
                  (lit "The service is currently unavailable. Please contact support."))
  else if status_is err 429 || message_includes err (lit "rate limit") then
    mkResponse 429
      (error_body (lit "Rate limit exceeded")
                  (lit "Too many requests. Please try again later."))
  else if message_includes err (lit "model") || message_includes err (lit "invalid") then
    mkResponse 500
      (error_body (lit "Configuration error")
                  (lit "Invalid AI model configuration. Please contact support."))
  else
    mkResponse 500
      (error_body (lit "Internal server error")
                  (lit "Something went wrong while generating an answer. Please try again.")).

(* ================================================================== *)
(** ** server.js: the handler of [POST /api/chat] *)

(** What the handler does to the outside world. *)
Inductive Effect : Type :=
| SetTimeout (ms : N)
| GenerateText (model system prompt : jsstring)
| Send (r : Response).

(** How the promise of [generateText] settles. *)
Inductive Settled : Type :=
| Fulfilled (text : jsstring)
| Rejected (err : JsError).

(** The events that can settle [Promise.race([generatePromise, timeoutPromise])],
    in the order the event loop delivers them. *)
Inductive Event : Type :=
| TimerFired
| RemoteSettled (s : Settled).

Inductive Phase : Type :=
| Racing      (* suspended at [await Promise.race(...)] *)
| Finished.   (* the handler has returned *)

(** The error raised when a property of [undefined] is read. *)
Definition type_error : JsError :=
  Error (lit "Cannot read properties of undefined (reading 'length')").

Definition validation_failed (details : list Joi.Detail) : Response :=
  mkResponse 400
    (JObj [ (lit "error", JStr (lit "Validation failed"));
            (lit "details", JArr (map (fun d => JStr (Joi.message d)) details)) ]).

(** [openai('gpt-4.1-mini')] *)
Definition model_name : jsstring := lit "gpt-4.1-mini".

(** The handler up to its only suspension point. *)
Definition receive (req_body : ReqBody) : Phase * list Effect :=
  match Joi.validate chatSchema req_body with
  | Joi.Failed details => (Finished, [Send (validation_failed details)])
  | Joi.Passed value =>
      match destructure value with
      | None => (Finished, [Send (catch_block type_error)])
      | Some r =>
          (Racing,
           [ SetTimeout 30000;
             GenerateText model_name (systemPrompt r) (question r) ])
      end
  end.

(** The response once the race is settled: the answer, or the catch block
    on the rejection of the remote call or of the timer. *)
Definition settle (e : Event) : Response :=
  match e with
  | TimerFired => catch_block (Error (lit "Request timeout"))
  | RemoteSettled (Fulfilled text) =>
      mkResponse 200 (JObj [ (lit "answer", JStr text) ])
  | RemoteSettled (Rejected err) => catch_block err
  end.

(** The first event resumes the handler; the race ignores what settles
    later. *)
Definition step (p : Phase) (e : Event) : Phase * list Effect :=
  match p with
  | Racing => (Finished, [Send (settle e)])
  | Finished => (Finished, [])
  end.

Fixpoint deliver (p : Phase) (events : list Event) : Phase * list Effect :=
  match events with
  | [] => (p, [])
  | e :: rest =>
      let (p1, out1) := step p e in
      let (p2, out2) := deliver p1 rest in
      (p2, out1 ++ out2)
  end.

(** One request: the body received, then the events of its race. *)
Definition handle (req_body : ReqBody) (events : list Event) : Phase * list Effect :=
  let (p, out) := receive req_body in
  let (p', out') := deliver p events in
  (p', out ++ out').

Definition responses (out : list Effect) : list Response :=
  flat_map (fun e => match e with Send r => [r] | _ => [] end) out.

Definition remote_calls (out : list Effect) : list (jsstring * jsstring) :=
  flat_map (fun e => match e with GenerateText _ s p => [(s, p)] | _ => [] end) out.

(* ================================================================== *)
(** ** server.js: the CORS policy *)

(** [process.env.ALLOWED_ORIGINS ? process.env.ALLOWED_ORIGINS.split(',')
    : ['http://localhost:3000']]; the variable is a string or is not set,
    and the empty string counts as not set. *)
Definition allowedOrigins (ALLOWED_ORIGINS : option jsstring) : list jsstring :=
  match ALLOWED_ORIGINS with
  | Some (c :: s) => split (lit ",") (c :: s)
  | _ => [lit "http://localhost:3000"]
  end.

(** What the origin callback passes on: [callback(null, true)] or
    [callback(new Error(...))]. *)
Inductive CorsDecision : Type :=
| CorsAllowed
| CorsError (message : jsstring).

(** The [origin] function given to [cors]; the header is a string or is
    absent. *)
Definition origin_callback (allowed : list jsstring) (origin : option jsstring)
  : CorsDecision :=
  match origin with
  | None => CorsAllowed
  | Some [] => CorsAllowed
  | Some o =>
      if mem o allowed then CorsAllowed else CorsError (lit "Not allowed by CORS")
  end.

(* ================================================================== *)
(** ** server.js, earlier revision: the handler of [POST /api/chat] *)

(** The template literal around its interpolated texts, then [.trim()]. *)
Definition prompt_template (style mode recency_text materials_text : jsstring)
  : jsstring :=
  trim
    (lf ++ prompt_goals ++ style
     ++ prompt_rules ++ style
     ++ prompt_strictness ++ mode
     ++ prompt_recency ++ recency_text
     ++ prompt_materials ++ materials_text
     ++ prompt_output ++ lf).

(** [req.body || {}], then one property of it: an array has none of the
    properties the handler reads. *)
Definition legacy_field (req_body : option ReqBody) (key : jsstring) : option json :=
  match req_body with
  | Some (BObject fields) => lookup key fields
  | _ => None
  end.

(** [name = default] in a destructuring pattern: the default stands in for
    [undefined] only. *)
Definition or_default (v : option json) (d : json) : json :=
  match v with
  | Some x => x
  | None => d
  end.

Inductive LegacyPhase : Type :=
| Awaiting    (* suspended at [await generateText(...)] *)
| Returned.

Definition missing_question : Response :=
  mkResponse 400
    (JObj [ (lit "error",
             JStr (lit "Missing or invalid " ++ dq ++ lit "question" ++ dq ++ lit " field.")) ]).

Definition something_went_wrong : Response :=
  mkResponse 500
    (JObj [ (lit "error", JStr (lit "Something went wrong while generating an answer.")) ]).

Section Legacy.

(** The handler does not check the options: a number, an array or an
    object given for one is turned into text by the conversions of the
    language, and materials that are not an array are read as they are.
    These two are parameters: the text of such a value, and the materials
    clause for a value that is not an array; [None] when evaluating them
    throws. *)
Variable to_string : json -> option jsstring.
Variable materials_text_other : json -> option jsstring.

(** [`${v}`] and ['...' + v] *)
Definition text_of (v : json) : option jsstring :=
  match v with
  | JStr s => Some s
  | JNull => Some (lit "null")
  | JBool true => Some (lit "true")
  | JBool false => Some (lit "false")
  | _ => to_string v
  end.

(** The text of an array element in [join]: nothing for [null]. *)
Definition element_text (v : json) : option jsstring :=
  match v with
  | JNull => Some []
  | _ => text_of v
  end.

Fixpoint elements (l : list json) : option (list jsstring) :=
  match l with
  | [] => Some []
  | v :: rest =>
      match element_text v, elements rest with
      | Some t, Some ts => Some (t :: ts)
      | _, _ => None
      end
  end.

Definition legacy_recency_clause (v : json) : option jsstring :=
  match v with
  | JStr s => Some (recency_clause s)
  | _ =>
      option_map
        (fun t => lit "focus on roughly the last " ++ t ++ lit " years of research")
        (text_of v)
  end.

Definition legacy_materials_clause (v : json) : option jsstring :=
  match v with
  | JArr l => option_map materials_clause (elements l)
  | _ => materials_text_other v
  end.

(** The system prompt, or [None] when building it throws. *)
Definition legacy_prompt (style mode recency_value materials_value : json)
  : option jsstring :=
  match text_of style, text_of mode,
        legacy_recency_clause recency_value,
        legacy_materials_clause materials_value with
  | Some s, Some m, Some r, Some ms => Some (prompt_template s m r ms)
  | _, _, _, _ => None
  end.

(** The handler up to its only suspension point. *)
Definition legacy_receive (req_body : option ReqBody) : LegacyPhase * list Effect :=
  let style := or_default (legacy_field req_body (lit "citationStyle")) (JStr (lit "apa")) in
  let mode := or_default (legacy_field req_body (lit "citationMode")) (JStr (lit "balanced")) in
  let recency_value := or_default (legacy_field req_body (lit "recency")) (JStr (lit "10")) in
  let materials_value := or_default (legacy_field req_body (lit "materials")) (JArr []) in
  match legacy_field req_body (lit "question") with
  | Some (JStr (c :: q)) =>
      match legacy_prompt style mode recency_value materials_value with
      | Some system => (Awaiting, [GenerateText model_name system (c :: q)])
      | None => (Returned, [Send something_went_wrong])
      end
  | _ => (Returned, [Send missing_question])
  end.

(** The handler after the remote call has settled. *)
Definition legacy_settle (s : Settled) : Response :=
  match s with
  | Fulfilled text => mkResponse 200 (JObj [ (lit "answer", JStr text) ])
  | Rejected _ => something_went_wrong
  end.

(** One request: the body received, then how the remote call settles, if
    it does. *)
Definition legacy_handle (req_body : option ReqBody) (outcome : option Settled)
  : list Effect :=
  match legacy_receive req_body, outcome with
  | (Awaiting, out), Some s => out ++ [Send (legacy_settle s)]
  | (_, out), _ => out
  end.

End Legacy.

(* ================================================================== *)
(** ** seed.js: chunking and upload of one document *)

(** [text.split('\n\n').filter(c => c.length > 50)] *)
Definition chunks (text : jsstring) : list jsstring :=
  filter (fun c => 50 <? length c) (split (lf ++ lf) text).

Definition Embedding := list Q.

Inductive SeedEffect : Type :=
| EmbeddingsCreate (model input : jsstring)
| Upsert (id : jsstring) (values : Embedding) (text source : jsstring).

Section Seed.

(** The embedding service and the vector index; [None] and [false] are a
    rejected promise, which ends the script. *)
Variable generateEmbedding : jsstring -> option Embedding.
Variable upsert : jsstring -> bool.

(** The loop over the chunks of one file, from position [i]; the flag
    tells whether it ran to its end. *)
Fixpoint upload (file : jsstring) (i : nat) (cs : list jsstring)
  : list SeedEffect * bool :=
  match cs with
  | [] => ([], true)
  | chunk :: rest =>
      let call := EmbeddingsCreate (lit "text-embedding-3-small") chunk in
      match generateEmbedding chunk with
      | None => ([call], false)
      | Some embedding =>
          let id := file ++ lit "-" ++ of_nat i in
          let put := Upsert id embedding chunk file in
          if upsert id
          then let (out, done) := upload file (S i) rest in (call :: put :: out, done)
          else ([call; put], false)
      end
  end.

(** The loop over the directory entries, given with their contents. *)
Fixpoint seed (files : list (jsstring * jsstring)) : list SeedEffect * bool :=
  match files with
  | [] => ([], true)
  | (file, text) :: rest =>
      if negb (ends_with (lit ".txt") file) then seed rest
      else
        let (out, done) := upload file 0 (chunks text) in
        if done
        then let (out', done') := seed rest in (out ++ out', done')
        else (out, false)
  end.

End Seed.

Definition embedded (out : list SeedEffect) : list jsstring :=
  flat_map (fun e => match e with EmbeddingsCreate _ c => [c] | _ => [] end) out.

(* ================================================================== *)
(** ** Vocabulary of the properties *)

(** The prompt without the [trim]: the template's first and last line feed
    are the only white space at its ends. *)
Definition prompt_text (r : ChatRequest) : jsstring :=
  prompt_goals ++ citationStyle r
  ++ prompt_rules ++ citationStyle r
  ++ prompt_strictness ++ citationMode r
  ++ prompt_recency ++ recency_clause (recency r)
  ++ prompt_materials ++ materials_clause (materials r)
  ++ prompt_output.

Definition materials_heading : jsstring := lit "Course materials:" ++ lf.

(** One line per material, in order: a line feed, two spaces, the bullet
    ["- "] and the material. *)
Definition bulleted (m : list jsstring) : jsstring :=
  flat_map (fun entry => lf ++ lit "  - " ++ entry) m.

(** The errors of one declared key. *)
Definition child_errors (child : Joi.Schema) (p : Joi.Path) (item : option json)
  : list Joi.Detail :=
  match Joi.validate_child child p item with
  | Joi.Failed es => es
  | Joi.Passed _ => []
  end.

(** All the errors of an object: those of the declared keys, in declaration
    order, then one for every unknown key. *)
Definition all_errors (keys : Joi.ObjectSchema) (fields : list (jsstring * json))
  : list Joi.Detail :=
  flat_map (fun kc => child_errors (snd kc) [Joi.Key (fst kc)] (lookup (fst kc) fields)) keys
  ++ map (fun k => Joi.create_error [] Joi.ObjectUnknown [Joi.Key k] 0 [])
         (Joi.unknown_keys keys fields).

(** The messages sent back for an object body that fails validation. *)
Definition details_of (fields : list (jsstring * json)) : list jsstring :=
  map Joi.message (all_errors chatSchema fields).

Definition outcome_errors {A : Type} (o : Joi.Outcome A) : list Joi.Detail :=
  match o with
  | Joi.Failed es => es
  | Joi.Passed _ => []
  end.

(** The violations of the request rules, as the interface documents them.
    A question shorter than 10 characters is either empty or too short:
    the two are reported differently. *)
Inductive Violation : Type :=
| QuestionMissing
| QuestionNotString
| QuestionEmpty
| QuestionTooShort
| QuestionTooLong
| CitationStyleNotAllowed
| CitationModeNotAllowed
| RecencyNotAllowed
| MaterialsTooMany
| MaterialTooLong.

Definition is_string (v : json) : bool :=
  match v with JStr _ => true | _ => false end.

Definition one_of (allowed : list jsstring) (v : json) : bool :=
  match v with JStr s => mem s allowed | _ => false end.

Definition too_long_entry (v : json) : bool :=
  match v with JStr s => 500 <? length s | _ => false end.

Definition violates (fields : list (jsstring * json)) (v : Violation) : bool :=
  match v with
  | QuestionMissing =>
      match lookup (lit "question") fields with None => true | Some _ => false end
  | QuestionNotString =>
      match lookup (lit "question") fields with
      | Some x => negb (is_string x) | None => false end
  | QuestionEmpty =>
      match lookup (lit "question") fields with
      | Some (JStr s) => length s =? 0 | _ => false end
  | QuestionTooShort =>
      match lookup (lit "question") fields with
      | Some (JStr s) => (0 <? length s) && (length s <? 10) | _ => false end
  | QuestionTooLong =>
      match lookup (lit "question") fields with
      | Some (JStr s) => 5000 <? length s | _ => false end
  | CitationStyleNotAllowed =>
      match lookup (lit "citationStyle") fields with
      | Some x => negb (one_of [lit "apa"; lit "mla"; lit "chicago"] x)
      | None => false end
  | CitationModeNotAllowed =>
      match lookup (lit "citationMode") fields with
      | Some x => negb (one_of [lit "strict"; lit "balanced"; lit "flexible"] x)
      | None => false end
  | RecencyNotAllowed =>
      match lookup (lit "recency") fields with
      | Some x => negb (one_of [lit "5"; lit "10"; lit "15"; lit "all"] x)
      | None => false end
  | MaterialsTooMany =>
      match lookup (lit "materials") fields with
      | Some (JArr l) => 20 <? length l | _ => false end
  | MaterialTooLong =>
      match lookup (lit "materials") fields with
      | Some (JArr l) => existsb too_long_entry l | _ => false end
  end.

(** The message that reports each violation. *)
Definition violation_message (v : Violation) : jsstring :=
  match v with
  | QuestionMissing => lit "Question is required"
  | QuestionNotString => lit "Question must be a string"
  | QuestionEmpty => dq ++ lit "question" ++ dq ++ lit " is not allowed to be empty"
  | QuestionTooShort => lit "Question must be at least 10 characters long"
  | QuestionTooLong => lit "Question cannot exceed 5000 characters"
  | CitationStyleNotAllowed => lit "Citation style must be one of: apa, mla, chicago"
  | CitationModeNotAllowed => lit "Citation mode must be one of: strict, balanced, flexible"
  | RecencyNotAllowed => lit "Recency must be one of: 5, 10, 15, all"
  | MaterialsTooMany => lit "Materials cannot exceed 20 items"
  | MaterialTooLong => lit "Each material entry cannot exceed 500 characters"
  end.

(** The schema of one entry of [materials], with the messages it inherits
    from the array. *)
Definition material_schema : Joi.StringSchema :=
  Joi.string |> Joi.max 500
  |> Joi.messages [ (Joi.StringMax, lit "Each material entry cannot exceed 500 characters") ].

(** The 400 response of an object body, with the messages of all its
    errors. *)
Definition rejection (fields : list (jsstring * json)) : Response :=
  mkResponse 400
    (JObj [ (lit "error", JStr (lit "Validation failed"));
            (lit "details", JArr (map JStr (details_of fields))) ]).

(** The five properties that the schema declares. *)
Definition declared : list jsstring :=
  [ lit "question"; lit "citationStyle"; lit "citationMode"; lit "recency";
    lit "materials" ].


(** The three options with enumerated values. *)
Definition enumerated : list (jsstring * list jsstring) :=
  [ (lit "recency", [lit "5"; lit "10"; lit "15"; lit "all"]);
    (lit "citationStyle", [lit "apa"; lit "mla"; lit "chicago"]);
    (lit "citationMode", [lit "strict"; lit "balanced"; lit "flexible"]) ].






(** The optional properties, explicitly given their default values. *)
Definition optional_defaults : list (jsstring * json) :=
  [ (lit "citationStyle", JStr (lit "apa"));
    (lit "citationMode", JStr (lit "balanced"));
    (lit "recency", JStr (lit "10"));
    (lit "materials", JArr []) ].

(* ================================================================== *)
(** ** Vocabulary of the further properties *)

(** What the schema asks of each property of the body. *)
Definition question_ok (item : option json) : bool :=
  match item with
  | Some (JStr s) => (10 <=? length s) && (length s <=? 5000)
  | _ => false
  end.

Definition option_ok (allowed : list jsstring) (item : option json) : bool :=
  match item with
  | None => true
  | Some v => one_of allowed v
  end.

Definition material_ok (v : json) : bool :=
  match v with
  | JStr s => (1 <=? length s) && (length s <=? 500)
  | _ => false
  end.

Definition materials_ok (item : option json) : bool :=
  match item with
  | None => true
  | Some (JArr l) => forallb material_ok l && (length l <=? 20)
  | Some _ => false
  end.

(** A body that meets every rule of the schema and has no other key. *)
Definition acceptable (fields : list (jsstring * json)) : bool :=
  question_ok (lookup (lit "question") fields)
  && option_ok [lit "apa"; lit "mla"; lit "chicago"] (lookup (lit "citationStyle") fields)
  && option_ok [lit "strict"; lit "balanced"; lit "flexible"]
               (lookup (lit "citationMode") fields)
  && option_ok [lit "5"; lit "10"; lit "15"; lit "all"] (lookup (lit "recency") fields)
  && materials_ok (lookup (lit "materials") fields)
  && forallb (fun k => mem k declared) (map fst fields).

(** An option of the validated request: the string given in the body, or
    the default when the body leaves it out. *)
Definition given_or_default (key : jsstring) (fields : list (jsstring * json))
           (default x : jsstring) : Prop :=
  lookup key fields = Some (JStr x) \/ (lookup key fields = None /\ x = default).


(** The label of the entry of [materials] at position [i]. *)
Definition material_label (i : nat) : jsstring :=
  dq ++ lit "materials[" ++ of_nat i ++ lit "]" ++ dq.

(** The identifiers under which the script stores chunks. *)
Definition upsert_ids (out : list SeedEffect) : list jsstring :=
  flat_map (fun e => match e with Upsert id _ _ _ => [id] | _ => [] end) out.

(** A call that the service it goes to rejects. *)
Definition rejected (generateEmbedding : jsstring -> option Embedding)
           (upsert : jsstring -> bool) (e : SeedEffect) : bool :=
  match e with
  | EmbeddingsCreate _ c =>
      match generateEmbedding c with None => true | Some _ => false end
  | Upsert id _ _ _ => negb (upsert id)
  end.

(** While a text is split: the fragment being read holds no separator that
    the text so far completes. *)
Definition clean (sep cur s : jsstring) : Prop :=
  forall a b, rev cur = a ++ b -> b <> [] -> starts_with sep (b ++ s) = false.

(** The origins that pass the CORS policy: no origin, an empty one, or one
    of the list. *)
Definition passes (allowed : list jsstring) (origin : option jsstring) : Prop :=
  match origin with
  | None => True
  | Some o => o = [] \/ In o allowed
  end.

(** A body whose question is a string that is not empty, whose options,
    where given, are strings and whose materials, where given, are an array
    of strings: the request [r] it stands for. *)
Definition stands_for (fields : list (jsstring * json)) (r : ChatRequest) : Prop :=
  lookup (lit "question") fields = Some (JStr (question r))
  /\ question r <> []
  /\ given_or_default (lit "citationStyle") fields (lit "apa") (citationStyle r)
  /\ given_or_default (lit "citationMode") fields (lit "balanced") (citationMode r)
  /\ given_or_default (lit "recency") fields (lit "10") (recency r)
  /\ (lookup (lit "materials") fields = Some (JArr (map JStr (materials r)))
      \/ (lookup (lit "materials") fields = None /\ materials r = [])).

(** The body that gives all five properties of a request explicitly. *)
Definition request_body (r : ChatRequest) : list (jsstring * json) :=
  [ (lit "question", JStr (question r));
    (lit "citationStyle", JStr (citationStyle r));
    (lit "citationMode", JStr (citationMode r));
    (lit "recency", JStr (recency r));
    (lit "materials", JArr (map JStr (materials r))) ].

(* ================================================================== *)
(** * Properties *)

(** ** Strings *)

Lemma str_eqb_refl (a : jsstring) : str_eqb a a = true.
Proof.
  induction a as [|x a IH]; simpl; [reflexivity|].
  now rewrite N.eqb_refl, IH.
Qed.

Lemma str_eqb_eq (a b : jsstring) : str_eqb a b = true <-> a = b.
Proof.
  split.
  - revert b; induction a as [|x a IH]; intros [|y b] H; simpl in H;
      try discriminate; [reflexivity|].
    apply andb_true_iff in H as [Hx Hr].
    apply N.eqb_eq in Hx. apply IH in Hr. now subst.
  - intros ->. apply str_eqb_refl.
Qed.

Lemma str_eqb_neq (a b : jsstring) : str_eqb a b = false <-> a <> b.
Proof.
  split.
  - intros H E. apply str_eqb_eq in E. congruence.
  - intros H. destruct (str_eqb a b) eqn:E; [|reflexivity].
    apply str_eqb_eq in E. contradiction.
Qed.

Lemma str_eqb_sym (a b : jsstring) : str_eqb a b = str_eqb b a.
Proof.
  destruct (str_eqb a b) eqn:E.
  - apply str_eqb_eq in E. subst. symmetry. apply str_eqb_refl.
  - symmetry. apply str_eqb_neq. apply str_eqb_neq in E. congruence.
Qed.

Lemma starts_with_app (p s : jsstring) : starts_with p (p ++ s) = true.
Proof.
  induction p as [|x p IH]; simpl; [reflexivity|].
  now rewrite N.eqb_refl, IH.
Qed.

Lemma starts_with_inv (p s : jsstring) :
  starts_with p s = true -> exists b, s = p ++ b.
Proof.
  revert s; induction p as [|x p IH]; intros s H.
  - now exists s.
  - destruct s as [|y s]; simpl in H; [discriminate|].
    apply andb_true_iff in H as [Hx Hr].
    apply N.eqb_eq in Hx. destruct (IH _ Hr) as [b ->].
    exists b. now subst.
Qed.

(** [includes] is the substring relation. *)
Lemma includes_app (a p b : jsstring) : includes p (a ++ p ++ b) = true.
Proof.
  induction a as [|x a IH]; simpl.
  - destruct (p ++ b) eqn:E.
    + destruct p; [reflexivity|discriminate].
    + simpl. rewrite <- E, starts_with_app. reflexivity.
  - rewrite IH. apply orb_true_r.
Qed.

Lemma includes_inv (p s : jsstring) :
  includes p s = true -> exists a b, s = a ++ p ++ b.
Proof.
  induction s as [|x s IH]; simpl; intros H.
  - destruct p; [|discriminate]. now exists [], [].
  - apply orb_true_iff in H as [H|H].
    + destruct (starts_with_inv _ _ H) as [b E]. exists [], b. exact E.
    + destruct (IH H) as (a & b & ->). now exists (x :: a), b.
Qed.

Lemma includes_intro (a p b s : jsstring) :
  s = a ++ p ++ b -> includes p s = true.
Proof. intros ->. apply includes_app. Qed.

Lemma trim_start_keep (c : N) (s : jsstring) :
  is_white_space c = false -> trim_start (c :: s) = c :: s.
Proof. intros H. simpl. now rewrite H. Qed.

Lemma trim_end_drop (c : N) (s : jsstring) :
  is_white_space c = true -> trim_end (s ++ [c]) = trim_end s.
Proof.
  intros H. unfold trim_end. rewrite rev_app_distr. simpl. now rewrite H.
Qed.

Lemma trim_end_keep (c : N) (s : jsstring) :
  is_white_space c = false -> trim_end (s ++ [c]) = s ++ [c].
Proof.
  intros H. unfold trim_end. rewrite rev_app_distr. simpl. rewrite H.
  simpl. now rewrite rev_involutive.
Qed.

(** A text that starts and ends with a visible character, wrapped in line
    feeds, is what [trim] gives back. *)
Lemma trim_wrapped (b e : N) (m : jsstring) :
  is_white_space b = false -> is_white_space e = false ->
  trim (lf ++ (b :: m ++ [e]) ++ lf) = b :: m ++ [e].
Proof.
  intros Hb He. unfold trim, lf.
  change ([10%N] ++ (b :: m ++ [e]) ++ [10%N])
    with (10%N :: (b :: m ++ [e]) ++ [10%N]).
  assert (Hs : trim_start (10%N :: (b :: m ++ [e]) ++ [10%N])
               = (b :: m ++ [e]) ++ [10%N]).
  { simpl. now rewrite Hb. }
  rewrite Hs, trim_end_drop by reflexivity.
  change (b :: m ++ [e]) with ((b :: m) ++ [e]).
  now apply trim_end_keep.
Qed.

Lemma join_cons (sep p : jsstring) (rest : list jsstring) :
  rest <> [] -> join sep (p :: rest) = p ++ sep ++ join sep rest.
Proof. destruct rest; [congruence|reflexivity]. Qed.

(** Joining with a separator and putting it in front once more is the
    same as putting it in front of every part. *)
Lemma join_prefixed (sep : jsstring) (parts : list jsstring) :
  parts <> [] ->
  sep ++ join sep parts = flat_map (fun p => sep ++ p) parts.
Proof.
  induction parts as [|p rest IH]; [congruence|]. intros _.
  destruct rest as [|q rest].
  - simpl. now rewrite app_nil_r.
  - rewrite join_cons by discriminate.
    change (flat_map (fun p0 => sep ++ p0) (p :: q :: rest))
      with ((sep ++ p) ++ flat_map (fun p0 => sep ++ p0) (q :: rest)).
    rewrite <- IH by discriminate. now rewrite <- app_assoc.
Qed.

(** ** The system prompt *)

Lemma trim_template (b e : N) (g o head mid tail : jsstring) :
  head = b :: g -> tail = o ++ [e] ->
  is_white_space b = false -> is_white_space e = false ->
  trim (lf ++ head ++ mid ++ tail ++ lf) = head ++ mid ++ tail.
Proof.
  intros -> -> Hb He.
  replace (lf ++ (b :: g) ++ mid ++ (o ++ [e]) ++ lf)
    with (lf ++ (b :: (g ++ mid ++ o) ++ [e]) ++ lf)
    by (simpl; repeat rewrite <- app_assoc; reflexivity).
  rewrite trim_wrapped by assumption.
  simpl. repeat rewrite <- app_assoc. reflexivity.
Qed.

Lemma systemPrompt_text (r : ChatRequest) : systemPrompt r = prompt_text r.
Proof.
  unfold systemPrompt, prompt_text.
  set (mid := citationStyle r ++ prompt_rules ++ citationStyle r
              ++ prompt_strictness ++ citationMode r
              ++ prompt_recency ++ recency_clause (recency r)
              ++ prompt_materials ++ materials_clause (materials r)).
  transitivity (trim (lf ++ prompt_goals ++ mid ++ prompt_output ++ lf)).
  { f_equal. unfold mid. repeat rewrite <- app_assoc. reflexivity. }
  rewrite (trim_template 89%N 46%N (tl prompt_goals) (removelast prompt_output))
    by reflexivity.
  unfold mid. repeat rewrite <- app_assoc. reflexivity.
Qed.

(** The recency clause and the materials clause sit in the prompt between
    fixed texts. *)
Lemma prompt_text_recency (r : ChatRequest) :
  exists a b, systemPrompt r = a ++ recency_clause (recency r) ++ b.
Proof.
  rewrite systemPrompt_text. unfold prompt_text.
  exists (prompt_goals ++ citationStyle r ++ prompt_rules ++ citationStyle r
          ++ prompt_strictness ++ citationMode r ++ prompt_recency),
         (prompt_materials ++ materials_clause (materials r) ++ prompt_output).
  repeat rewrite <- app_assoc. reflexivity.
Qed.

Lemma prompt_text_materials (r : ChatRequest) :
  exists a b,
    systemPrompt r = a ++ (materials_heading ++ materials_clause (materials r)) ++ b.
Proof.
  rewrite systemPrompt_text. unfold prompt_text.
  exists (prompt_goals ++ citationStyle r ++ prompt_rules ++ citationStyle r
          ++ prompt_strictness ++ citationMode r ++ prompt_recency
          ++ recency_clause (recency r) ++ lit "." ++ lf ++ lf),
         prompt_output.
  change prompt_materials with ((lit "." ++ lf ++ lf) ++ materials_heading).
  repeat rewrite <- app_assoc. reflexivity.
Qed.

(** C6: when [recency] is ["all"] the system prompt contains "no hard limit,
    but flag older work"; when it is ["5"], ["10"] or ["15"] the prompt
    contains "focus on roughly the last ", the value itself and " years of
    research". *)
Theorem recency_clause_rendered (r : ChatRequest) :
  (recency r = lit "all" ->
   includes (lit "no hard limit, but flag older work") (systemPrompt r) = true)
  /\ (In (recency r) [lit "5"; lit "10"; lit "15"] ->
      includes (lit "focus on roughly the last " ++ recency r ++ lit " years of research")
               (systemPrompt r) = true).
Proof.
  destruct (prompt_text_recency r) as (a & b & E).
  split; intros H.
  - apply (includes_intro a _ b). rewrite E, H. reflexivity.
  - apply (includes_intro a _ b). rewrite E. unfold recency_clause.
    assert (Hn : str_eqb (recency r) (lit "all") = false).
    { simpl in H. destruct H as [H|[H|[H|[]]]]; rewrite <- H; reflexivity. }
    rewrite Hn. repeat rewrite <- app_assoc. reflexivity.
Qed.

Lemma recency_clause_rendered_witness :
  let r := mkChatRequest (lit "What is cognitive behavioural therapy?")
                         (lit "apa") (lit "balanced") (lit "15") [] in
  In (recency r) [lit "5"; lit "10"; lit "15"]
  /\ includes (lit "focus on roughly the last 15 years of research") (systemPrompt r) = true.
Proof.
  intros r.
  assert (H : In (recency r) [lit "5"; lit "10"; lit "15"]).
  { right; right; left; reflexivity. }
  split; [exact H|].
  exact (proj2 (recency_clause_rendered r) H).
Defined.

(** C7: when [materials] is not empty the system prompt contains, under the
    heading "Course materials:", a bulleted list with one ["- "] entry per
    material, in order; when it is empty the prompt contains instead the
    sentence "- No specific course materials listed in this request.". *)
Theorem materials_clause_rendered (r : ChatRequest) :
  (materials r <> [] ->
   includes (lit "Course materials:" ++ lf
             ++ lit "- User has indicated the following course materials:"
             ++ bulleted (materials r))
            (systemPrompt r) = true)
  /\ (materials r = [] ->
      includes (lit "Course materials:" ++ lf
                ++ lit "- No specific course materials listed in this request.")
               (systemPrompt r) = true).
Proof.
  destruct (prompt_text_materials r) as (a & b & E).
  split; intros H.
  - apply (includes_intro a _ b). rewrite E. do 2 f_equal.
    unfold materials_heading, materials_clause.
    destruct (materials r) as [|m rest] eqn:Em; [congruence|].
    change (0 <? length (m :: rest)) with true. cbv iota.
    unfold bulleted.
    rewrite (flat_map_ext _ (fun p => (lf ++ lit "  - ") ++ p))
      by (intros; now rewrite <- app_assoc).
    rewrite <- join_prefixed by discriminate.
    repeat rewrite <- app_assoc. reflexivity.
  - apply (includes_intro a _ b). rewrite E, H. reflexivity.
Qed.

Lemma materials_clause_rendered_witness :
  let r := mkChatRequest (lit "What is cognitive behavioural therapy?")
                         (lit "apa") (lit "balanced") (lit "10")
                         [lit "Kring 2021"; lit "Beck 1979"] in
  materials r <> []
  /\ includes (lit "Course materials:" ++ lf
               ++ lit "- User has indicated the following course materials:" ++ lf
               ++ lit "  - Kring 2021" ++ lf
               ++ lit "  - Beck 1979")
              (systemPrompt r) = true.
Proof.
  intros r.
  assert (H : materials r <> []) by discriminate.
  split; [exact H|].
  exact (proj1 (materials_clause_rendered r) H).
Defined.

(** ** The validator *)

Lemma validate_keys_errors (keys : Joi.ObjectSchema) (fields : list (jsstring * json)) :
  snd (Joi.validate_keys keys fields)
  = flat_map (fun kc => child_errors (snd kc) [Joi.Key (fst kc)] (lookup (fst kc) fields))
             keys.
Proof.
  induction keys as [|[key child] rest IH]; [reflexivity|].
  simpl. destruct (Joi.validate_keys rest fields) as [vals errs]. simpl in IH.
  unfold child_errors.
  destruct (Joi.validate_child child [Joi.Key key] (lookup key fields)) as [[v|]|es];
    simpl; now rewrite IH.
Qed.

Lemma validate_object (keys : Joi.ObjectSchema) (fields : list (jsstring * json)) :
  Joi.validate keys (BObject fields)
  = Joi.finalize (fst (Joi.validate_keys keys fields)) (all_errors keys fields).
Proof.
  unfold Joi.validate, all_errors. rewrite <- validate_keys_errors.
  now destruct (Joi.validate_keys keys fields).
Qed.

Lemma finalize_failed {A : Type} (v : A) (errors : list Joi.Detail) :
  errors <> [] -> Joi.finalize v errors = Joi.Failed errors.
Proof. destruct errors; [congruence|reflexivity]. Qed.

Lemma finalize_passed_inv {A : Type} (v w : A) (errors : list Joi.Detail) :
  Joi.finalize v errors = Joi.Passed w -> errors = [] /\ w = v.
Proof. destruct errors; simpl; intros H; [now inversion H|discriminate]. Qed.

Lemma validation_failed_body (errors : list Joi.Detail) :
  validation_failed errors
  = mkResponse 400
      (JObj [ (lit "error", JStr (lit "Validation failed"));
              (lit "details", JArr (map JStr (map Joi.message errors))) ]).
Proof. unfold validation_failed. now rewrite map_map. Qed.

(** An object body with at least one error gets the 400 response carrying
    the messages of all its errors. *)
Lemma receive_invalid (fields : list (jsstring * json)) (d : Joi.Detail) :
  In d (all_errors chatSchema fields) ->
  receive (BObject fields)
  = (Finished,
     [Send (mkResponse 400
              (JObj [ (lit "error", JStr (lit "Validation failed"));
                      (lit "details", JArr (map JStr (details_of fields))) ]))]).
Proof.
  intros Hd. unfold receive. rewrite validate_object, finalize_failed.
  - now rewrite validation_failed_body.
  - intros E. rewrite E in Hd. contradiction.
Qed.

Lemma in_child_errors (key : jsstring) (child : Joi.Schema) (d : Joi.Detail)
      (keys : Joi.ObjectSchema) (fields : list (jsstring * json)) :
  In (key, child) keys ->
  In d (child_errors child [Joi.Key key] (lookup key fields)) ->
  In d (all_errors keys fields).
Proof.
  intros Hk Hd. unfold all_errors. apply in_or_app. left.
  apply in_flat_map. exists (key, child). now split.
Qed.


Lemma outcome_errors_finalize {A : Type} (v : A) (errors : list Joi.Detail) :
  outcome_errors (Joi.finalize v errors) = errors.
Proof. now destruct errors. Qed.

Lemma child_errors_string (s : Joi.StringSchema) (p : Joi.Path) (item : option json) :
  child_errors (Joi.SString s) p item = outcome_errors (Joi.validate_string s [] p item).
Proof.
  unfold child_errors. simpl. now destruct (Joi.validate_string s [] p item).
Qed.

Lemma child_errors_array (a : Joi.ArraySchema) (p : Joi.Path) (item : option json) :
  child_errors (Joi.SArray a) p item = outcome_errors (Joi.validate_array a [] p item).
Proof.
  unfold child_errors. simpl. now destruct (Joi.validate_array a [] p item).
Qed.

(** A value outside the allowed ones of a [valid(...)] schema always gets
    the [any.only] error, whatever else is wrong with it. *)
Lemma only_rejected (sch : Joi.StringSchema) (inherited : Joi.Messages)
      (p : Joi.Path) (v : json) :
  Joi.s_only sch = true -> one_of (Joi.s_valids sch) v = false ->
  In (Joi.create_error (Joi.s_messages sch ++ inherited) Joi.AnyOnly p 0 (Joi.s_valids sch))
     (outcome_errors (Joi.validate_string sch inherited p (Some v))).
Proof.
  intros Ho Hv. unfold Joi.validate_string. rewrite Ho.
  destruct v as [| b | x | s | l | f]; try (left; reflexivity).
  cbn [one_of] in Hv. rewrite Hv.
  destruct s as [|c s].
  - destruct (existsb Joi.min_is_zero (Joi.s_rules sch)).
    + rewrite outcome_errors_finalize. left. reflexivity.
    + left. reflexivity.
  - rewrite outcome_errors_finalize. left. reflexivity.
Qed.

Lemma items_too_long (prefs : Joi.Messages) (p : Joi.Path) (i : nat) (l : list json) :
  existsb too_long_entry l = true ->
  exists d,
    In d (snd (Joi.validate_items material_schema prefs p i l))
    /\ Joi.message d = lit "Each material entry cannot exceed 500 characters".
Proof.
  revert i. induction l as [|x rest IH]; intros i H; [discriminate|].
  simpl in H. apply orb_true_iff in H as [H|H].
  - destruct x as [| b | q | s | l' | f]; try discriminate.
    simpl in H. apply Nat.ltb_lt in H.
    cbn [Joi.validate_items].
    destruct (Joi.validate_items material_schema prefs p (S i) rest) as [vals errs].
    destruct s as [|c s]; [simpl in H; lia|].
    unfold Joi.validate_string. cbn -[Nat.leb length lit].
    destruct (Nat.leb_spec (length (c :: s)) 500) as [Hle|Hgt]; [lia|].
    cbn -[lit]. eexists. split; [left; reflexivity|reflexivity].
  - destruct (IH (S i) H) as (d & Hd & Hm). exists d. split; [|exact Hm].
    cbn [Joi.validate_items].
    destruct (Joi.validate_items material_schema prefs p (S i) rest) as [vals errs].
    simpl in Hd.
    destruct (Joi.validate_string material_schema prefs (p ++ [Joi.Index i]) (Some x))
      as [[s|]|es]; simpl; auto.
    apply in_or_app. now right.
Qed.

(** Every violation is reported by its message. *)
Lemma violation_reported (fields : list (jsstring * json)) (v : Violation) :
  violates fields v = true -> In (violation_message v) (details_of fields).
Proof.
  intros H. unfold details_of. apply in_map_iff.
  destruct v; cbn [violates] in H.
  - (* question missing *)
    destruct (lookup (lit "question") fields) eqn:E; [discriminate|].
    eexists. split; cycle 1.
    { eapply in_child_errors; [left; reflexivity|]. rewrite E. left. reflexivity. }
    reflexivity.
  - (* question not a string *)
    destruct (lookup (lit "question") fields) as [x|] eqn:E; [|discriminate].
    eexists. split; cycle 1.
    { eapply in_child_errors; [left; reflexivity|]. rewrite E.
      destruct x; try discriminate; left; reflexivity. }
    reflexivity.
  - (* question empty *)
    destruct (lookup (lit "question") fields) as [[| | |s| |]|] eqn:E; try discriminate.
    destruct s; [|discriminate].
    eexists. split; cycle 1.
    { eapply in_child_errors; [left; reflexivity|]. rewrite E. left. reflexivity. }
    reflexivity.
  - (* question too short *)
    destruct (lookup (lit "question") fields) as [[| | |s| |]|] eqn:E; try discriminate.
    apply andb_true_iff in H as [H0 H1].
    apply Nat.ltb_lt in H0. apply Nat.ltb_lt in H1.
    eexists. split; cycle 1.
    { eapply in_child_errors; [left; reflexivity|]. rewrite E.
      rewrite child_errors_string. unfold Joi.validate_string.
      destruct s as [|c s]; [simpl in H0; lia|].
      cbn -[Nat.leb length lit]. rewrite outcome_errors_finalize.
      destruct (Nat.leb_spec 10 (length (c :: s))) as [Hle|Hgt]; [lia|].
      left. reflexivity. }
    reflexivity.
  - (* question too long *)
    destruct (lookup (lit "question") fields) as [[| | |s| |]|] eqn:E; try discriminate.
    apply Nat.ltb_lt in H.
    eexists. split; cycle 1.
    { eapply in_child_errors; [left; reflexivity|]. rewrite E.
      rewrite child_errors_string. unfold Joi.validate_string.
      destruct s as [|c s]; [simpl in H; lia|].
      cbn -[Nat.leb length lit]. rewrite outcome_errors_finalize.
      apply in_or_app. right.
      destruct (Nat.leb_spec (length (c :: s)) 5000) as [Hle|Hgt]; [lia|].
      left. reflexivity. }
    reflexivity.
  - (* citationStyle *)
    destruct (lookup (lit "citationStyle") fields) as [x|] eqn:E; [|discriminate].
    apply negb_true_iff in H.
    eexists. split; cycle 1.
    { eapply in_child_errors; [right; left; reflexivity|]. rewrite E.
      rewrite child_errors_string. apply only_rejected; [reflexivity|exact H]. }
    reflexivity.
  - (* citationMode *)
    destruct (lookup (lit "citationMode") fields) as [x|] eqn:E; [|discriminate].
    apply negb_true_iff in H.
    eexists. split; cycle 1.
    { eapply in_child_errors; [do 2 right; left; reflexivity|]. rewrite E.
      rewrite child_errors_string. apply only_rejected; [reflexivity|exact H]. }
    reflexivity.
  - (* recency *)
    destruct (lookup (lit "recency") fields) as [x|] eqn:E; [|discriminate].
    apply negb_true_iff in H.
    eexists. split; cycle 1.
    { eapply in_child_errors; [do 3 right; left; reflexivity|]. rewrite E.
      rewrite child_errors_string. apply only_rejected; [reflexivity|exact H]. }
    reflexivity.
  - (* materials: too many entries *)
    destruct (lookup (lit "materials") fields) as [[| | | |l|]|] eqn:E; try discriminate.
    apply Nat.ltb_lt in H.
    eexists. split; cycle 1.
    { eapply in_child_errors; [do 4 right; left; reflexivity|]. rewrite E.
      rewrite child_errors_array. unfold Joi.validate_array.
      cbn -[Nat.leb length lit Joi.validate_items].
      destruct (Joi.validate_items _ _ _ 0 l) as [vals errs].
      rewrite outcome_errors_finalize. apply in_or_app. right.
      destruct (Nat.leb_spec (length l) 20) as [Hle|Hgt]; [lia|].
      left. reflexivity. }
    reflexivity.
  - (* materials: an entry too long *)
    destruct (lookup (lit "materials") fields) as [[| | | |l|]|] eqn:E; try discriminate.
    destruct (items_too_long
                [(Joi.ArrayMax, lit "Materials cannot exceed 20 items")]
                [Joi.Key (lit "materials")] 0 l H) as (d & Hd & Hm).
    exists d. split; [exact Hm|].
    eapply in_child_errors; [do 4 right; left; reflexivity|]. rewrite E.
    rewrite child_errors_array. unfold Joi.validate_array.
    cbn -[Nat.leb length lit Joi.validate_items].
    change (Joi.messages _ (Joi.max 500 Joi.string)) with material_schema.
    destruct (Joi.validate_items material_schema _ _ 0 l) as [vals errs].
    rewrite outcome_errors_finalize. apply in_or_app. left. exact Hd.
Qed.

Lemma deliver_finished (events : list Event) : deliver Finished events = (Finished, []).
Proof.
  induction events as [|e rest IH]; [reflexivity|]. simpl. now rewrite IH.
Qed.

Lemma handle_invalid (fields : list (jsstring * json)) (d : Joi.Detail)
      (events : list Event) :
  In d (all_errors chatSchema fields) ->
  handle (BObject fields) events = (Finished, [Send (rejection fields)]).
Proof.
  intros Hd. unfold handle. rewrite (receive_invalid fields d Hd).
  now rewrite deliver_finished.
Qed.

(** X21: a body that is a JSON array is turned down as a whole: the answer
    is 400 "Validation failed" with the single message that the value must
    be of type object, whatever the array holds. *)
Lemma array_body_rejected (items : list json) (events : list Event) :
  handle (BArray items) events
  = (Finished,
     [Send (mkResponse 400
              (JObj [ (lit "error", JStr (lit "Validation failed"));
                      (lit "details",
                       JArr [JStr (dq ++ lit "value" ++ dq ++ lit " must be of type object")]) ]))]).
Proof.
  unfold handle. cbn [receive Joi.validate chatSchema]. now rewrite deliver_finished.
Qed.




Lemma mem_true (k : jsstring) (l : list jsstring) : mem k l = true <-> In k l.
Proof.
  unfold mem. rewrite existsb_exists. split.
  - intros (x & Hx & Ex). apply str_eqb_eq in Ex. now subst.
  - intros H. exists k. split; [exact H|apply str_eqb_refl].
Qed.





Lemma enumerated_rejected (fields : list (jsstring * json)) (key : jsstring)
      (allowed : list jsstring) (v : json) :
  In (key, allowed) enumerated ->
  lookup key fields = Some v -> one_of allowed v = false ->
  exists d, In d (all_errors chatSchema fields).
Proof.
  intros Hk Hl Hv.
  assert (Hviol : exists w, violates fields w = true).
  { unfold enumerated in Hk. cbn [In] in Hk.
    destruct Hk as [Hk|[Hk|[Hk|[]]]]; injection Hk as <- <-.
    - exists RecencyNotAllowed. cbn [violates].
      change (lookup (lit "recency") fields = Some v) in Hl. rewrite Hl.
      apply negb_true_iff. exact Hv.
    - exists CitationStyleNotAllowed. cbn [violates].
      change (lookup (lit "citationStyle") fields = Some v) in Hl. rewrite Hl.
      apply negb_true_iff. exact Hv.
    - exists CitationModeNotAllowed. cbn [violates].
      change (lookup (lit "citationMode") fields = Some v) in Hl. rewrite Hl.
      apply negb_true_iff. exact Hv. }
  destruct Hviol as [w Hw]. apply violation_reported in Hw.
  unfold details_of in Hw. apply in_map_iff in Hw as (d & _ & Hd). now exists d.
Qed.

Lemma enumerated_number (fields : list (jsstring * json)) (key : jsstring)
      (allowed : list jsstring) (x : Q) :
  In (key, allowed) enumerated ->
  lookup key fields = Some (JNum x) ->
  In (dq ++ key ++ dq ++ lit " must be a string") (details_of fields).
Proof.
  intros Hk Hl. unfold details_of. apply in_map_iff.
  unfold enumerated in Hk. cbn [In] in Hk.
  destruct Hk as [Hk|[Hk|[Hk|[]]]]; injection Hk as <- <-.
  - eexists. split; cycle 1.
    { eapply in_child_errors; [do 3 right; left; reflexivity|].
      change (lookup (lit "recency") fields = Some (JNum x)) in Hl. rewrite Hl.
      right. left. reflexivity. }
    reflexivity.
  - eexists. split; cycle 1.
    { eapply in_child_errors; [right; left; reflexivity|].
      change (lookup (lit "citationStyle") fields = Some (JNum x)) in Hl. rewrite Hl.
      right. left. reflexivity. }
    reflexivity.
  - eexists. split; cycle 1.
    { eapply in_child_errors; [do 2 right; left; reflexivity|].
      change (lookup (lit "citationMode") fields = Some (JNum x)) in Hl. rewrite Hl.
      right. left. reflexivity. }
    reflexivity.
Qed.

(** C10: when [recency], [citationStyle] or [citationMode] is given as a
    JSON number the request is answered by 400 "Validation failed", with a
    message that the option must be a string; more generally the request is
    answered by 400 unless the option, when given, is one of its allowed
    strings. *)
Theorem option_must_be_allowed_string (fields : list (jsstring * json))
        (key : jsstring) (allowed : list jsstring) (events : list Event) :
  In (key, allowed) enumerated ->
  (forall x, lookup key fields = Some (JNum x) ->
     handle (BObject fields) events
     = (Finished,
        [Send (mkResponse 400
                 (JObj [ (lit "error", JStr (lit "Validation failed"));
                         (lit "details", JArr (map JStr (details_of fields))) ]))])
     /\ In (dq ++ key ++ dq ++ lit " must be a string") (details_of fields))
  /\ (forall v, lookup key fields = Some v -> one_of allowed v = false ->
        handle (BObject fields) events
        = (Finished,
           [Send (mkResponse 400
                    (JObj [ (lit "error", JStr (lit "Validation failed"));
                            (lit "details", JArr (map JStr (details_of fields))) ]))])).
Proof.
  intros Hk. split.
  - intros x Hl. split.
    + destruct (enumerated_rejected fields key allowed (JNum x) Hk Hl eq_refl) as [d Hd].
      exact (handle_invalid fields d events Hd).
    + exact (enumerated_number fields key allowed x Hk Hl).
  - intros v Hl Hv.
    destruct (enumerated_rejected fields key allowed v Hk Hl Hv) as [d Hd].
    exact (handle_invalid fields d events Hd).
Qed.

Lemma option_must_be_allowed_string_witness :
  let fields := [ (lit "question", JStr (lit "What is cognitive behavioural therapy?"));
                  (lit "recency", JNum 10) ] in
  In (lit "recency", [lit "5"; lit "10"; lit "15"; lit "all"]) enumerated
  /\ lookup (lit "recency") fields = Some (JNum 10)
  /\ handle (BObject fields) []
     = (Finished,
        [Send (mkResponse 400
                 (JObj [ (lit "error", JStr (lit "Validation failed"));
                         (lit "details",
                          JArr [ JStr (lit "Recency must be one of: 5, 10, 15, all");
                                 JStr (dq ++ lit "recency" ++ dq ++ lit " must be a string") ]) ]))]).
Proof.
  intros fields.
  assert (Hk : In (lit "recency", [lit "5"; lit "10"; lit "15"; lit "all"]) enumerated).
  { left. reflexivity. }
  assert (Hl : lookup (lit "recency") fields = Some (JNum 10)) by reflexivity.
  split; [exact Hk|]. split; [exact Hl|].
  exact (proj1 (proj1 (option_must_be_allowed_string fields _ _ [] Hk) 10%Q Hl)).
Defined.

(** ** A request that passes validation is fully populated *)

Lemma finalize_failed_inv {A : Type} (v : A) (errors es : list Joi.Detail) :
  Joi.finalize v errors = Joi.Failed es -> es <> [].
Proof. destruct errors; simpl; intros H; inversion H; discriminate. Qed.

Lemma validate_string_failed (sch : Joi.StringSchema) (inherited : Joi.Messages)
      (p : Joi.Path) (item : option json) (es : list Joi.Detail) :
  Joi.validate_string sch inherited p item = Joi.Failed es -> es <> [].
Proof.
  unfold Joi.validate_string. intros H E. subst es.
  destruct item as [v|].
  - destruct v as [| b | x | s | l | f];
      try (inversion H as [H1]; now apply app_eq_nil in H1 as [_ H1]).
    destruct (mem s (Joi.s_valids sch)); [discriminate|].
    destruct s as [|c s].
    + destruct (existsb Joi.min_is_zero (Joi.s_rules sch)).
      * now apply finalize_failed_inv in H.
      * inversion H as [H1]. now apply app_eq_nil in H1 as [_ H1].
    + now apply finalize_failed_inv in H.
  - destruct (Joi.s_required sch); discriminate.
Qed.

Lemma validate_string_passed (sch : Joi.StringSchema) (inherited : Joi.Messages)
      (p : Joi.Path) (item : option json) (o : option jsstring) :
  Joi.validate_string sch inherited p item = Joi.Passed o ->
  Joi.s_required sch = true \/ Joi.s_default sch <> None ->
  exists s, o = Some s.
Proof.
  unfold Joi.validate_string. intros H Hd.
  destruct item as [v|].
  - destruct v as [| b | x | s | l | f]; try discriminate.
    destruct (mem s (Joi.s_valids sch)).
    + inversion H. now exists s.
    + destruct s as [|c s].
      * destruct (existsb Joi.min_is_zero (Joi.s_rules sch)); [|discriminate].
        apply finalize_passed_inv in H as [_ ->]. now eexists.
      * apply finalize_passed_inv in H as [_ ->]. now eexists.
  - destruct (Joi.s_required sch).
    + discriminate.
    + inversion H. destruct Hd as [Hd|Hd]; [discriminate|].
      destruct (Joi.s_default sch) as [d|]; [now exists d|congruence].
Qed.

Lemma validate_array_failed (sch : Joi.ArraySchema) (inherited : Joi.Messages)
      (p : Joi.Path) (item : option json) (es : list Joi.Detail) :
  Joi.validate_array sch inherited p item = Joi.Failed es -> es <> [].
Proof.
  unfold Joi.validate_array. intros H.
  destruct item as [v|]; [|discriminate].
  destruct v as [| b | x | s | l | f]; try (inversion H; discriminate).
  destruct (Joi.validate_items _ _ _ 0 l) as [vals errs].
  now apply finalize_failed_inv in H.
Qed.

Lemma validate_array_passed (sch : Joi.ArraySchema) (inherited : Joi.Messages)
      (p : Joi.Path) (item : option json) (o : option (list jsstring)) :
  Joi.validate_array sch inherited p item = Joi.Passed o ->
  Joi.a_default sch <> None ->
  exists l, o = Some l.
Proof.
  unfold Joi.validate_array. intros H Hd.
  destruct item as [v|].
  - destruct v as [| b | x | s | l | f]; try discriminate.
    destruct (Joi.validate_items _ _ _ 0 l) as [vals errs].
    apply finalize_passed_inv in H as [_ ->]. now eexists.
  - inversion H. destruct (Joi.a_default sch) as [d|]; [now exists d|congruence].
Qed.

Lemma string_child_passed (sch : Joi.StringSchema) (p : Joi.Path) (item : option json) :
  child_errors (Joi.SString sch) p item = [] ->
  Joi.s_required sch = true \/ Joi.s_default sch <> None ->
  exists s, Joi.validate_child (Joi.SString sch) p item = Joi.Passed (Some (Joi.VString s)).
Proof.
  unfold child_errors. cbn [Joi.validate_child]. intros H Hd.
  destruct (Joi.validate_string sch [] p item) as [o|es] eqn:E.
  - destruct (validate_string_passed _ _ _ _ _ E Hd) as [s ->]. now exists s.
  - apply validate_string_failed in E. contradiction.
Qed.

Lemma array_child_passed (sch : Joi.ArraySchema) (p : Joi.Path) (item : option json) :
  child_errors (Joi.SArray sch) p item = [] ->
  Joi.a_default sch <> None ->
  exists l, Joi.validate_child (Joi.SArray sch) p item = Joi.Passed (Some (Joi.VArray l)).
Proof.
  unfold child_errors. cbn [Joi.validate_child]. intros H Hd.
  destruct (Joi.validate_array sch [] p item) as [o|es] eqn:E.
  - destruct (validate_array_passed _ _ _ _ _ E Hd) as [l ->]. now exists l.
  - apply validate_array_failed in E. contradiction.
Qed.

(** The validated value holds the five properties with their types: the
    handler's destructuring never meets [undefined]. *)
Lemma validated_request (req_body : ReqBody) (value : list (jsstring * Joi.Value)) :
  Joi.validate chatSchema req_body = Joi.Passed value ->
  exists r, destructure value = Some r.
Proof.
  destruct req_body as [fields|items]; [|discriminate].
  rewrite validate_object. intros H.
  apply finalize_passed_inv in H as [He ->].
  unfold all_errors in He. apply app_eq_nil in He as [He _].
  unfold chatSchema in He. cbn [flat_map fst snd] in He.
  apply app_eq_nil in He as [H1 He]. apply app_eq_nil in He as [H2 He].
  apply app_eq_nil in He as [H3 He]. apply app_eq_nil in He as [H4 He].
  apply app_eq_nil in He as [H5 _].
  apply string_child_passed in H1 as [q E1]; [|left; reflexivity].
  apply string_child_passed in H2 as [cs E2]; [|right; discriminate].
  apply string_child_passed in H3 as [cm E3]; [|right; discriminate].
  apply string_child_passed in H4 as [rc E4]; [|right; discriminate].
  apply array_child_passed in H5 as [ms E5]; [|discriminate].
  exists (mkChatRequest q cs cm rc ms).
  unfold chatSchema. cbn [Joi.validate_keys].
  rewrite E5, E4, E3, E2, E1. reflexivity.
Qed.

(** A request that passes validation sets the timer and calls the remote
    service once, with the system prompt and the question. *)
Lemma receive_valid (req_body : ReqBody) (value : list (jsstring * Joi.Value)) :
  Joi.validate chatSchema req_body = Joi.Passed value ->
  exists r,
    destructure value = Some r
    /\ receive req_body
       = (Racing, [SetTimeout 30000; GenerateText model_name (systemPrompt r) (question r)]).
Proof.
  intros H. destruct (validated_request _ _ H) as [r Hr]. exists r.
  split; [exact Hr|]. unfold receive. now rewrite H, Hr.
Qed.

Lemma handle_valid (req_body : ReqBody) (value : list (jsstring * Joi.Value))
      (e : Event) (later : list Event) :
  Joi.validate chatSchema req_body = Joi.Passed value ->
  exists r,
    destructure value = Some r
    /\ handle req_body (e :: later)
       = (Finished,
          [ SetTimeout 30000;
            GenerateText model_name (systemPrompt r) (question r);
            Send (settle e) ]).
Proof.
  intros H. destruct (receive_valid _ _ H) as (r & Hr & E). exists r.
  split; [exact Hr|]. unfold handle. rewrite E. cbn [deliver step].
  now rewrite deliver_finished.
Qed.

(** ** The timeout *)



(** ** Validation comes before the remote call *)

(** C4: a request that fails validation is answered by 400 and nothing
    else happens, whatever the events: no remote call is made; a remote
    call is made only for a request that passed validation. *)
Theorem invalid_never_calls_remote (req_body : ReqBody) (events : list Event) :
  (forall details,
      Joi.validate chatSchema req_body = Joi.Failed details ->
      snd (handle req_body events) = [Send (validation_failed details)]
      /\ status (validation_failed details) = 400%N
      /\ remote_calls (snd (handle req_body events)) = [])
  /\ (remote_calls (snd (handle req_body events)) <> [] ->
      exists value, Joi.validate chatSchema req_body = Joi.Passed value).
Proof.
  split.
  - intros details H. unfold handle, receive. rewrite H, deliver_finished.
    repeat split.
  - intros Hc. destruct (Joi.validate chatSchema req_body) as [value|details] eqn:E.
    + now exists value.
    + exfalso. apply Hc. unfold handle, receive. rewrite E, deliver_finished.
      reflexivity.
Qed.

Lemma invalid_never_calls_remote_witness :
  let req_body := BObject [ (lit "question", JStr (lit "short")) ] in
  let events := [RemoteSettled (Fulfilled (lit "never asked"))] in
  (exists details, Joi.validate chatSchema req_body = Joi.Failed details)
  /\ remote_calls (snd (handle req_body events)) = []
  /\ responses (snd (handle req_body events))
     = [ mkResponse 400
           (JObj [ (lit "error", JStr (lit "Validation failed"));
                   (lit "details",
                    JArr [JStr (lit "Question must be at least 10 characters long")]) ]) ].
Proof.
  intros req_body events.
  assert (H : Joi.validate chatSchema req_body
              = Joi.Failed
                  [ Joi.mkDetail Joi.StringMin [Joi.Key (lit "question")]
                      (lit "Question must be at least 10 characters long") ])
    by reflexivity.
  split; [eexists; exact H|].
  destruct (proj1 (invalid_never_calls_remote req_body events) _ H) as (Hs & _ & Hc).
  split; [exact Hc|]. rewrite Hs. reflexivity.
Defined.

(** ** Classification of failures *)




(** ** Defaults *)

Lemma lookup_app {A : Type} (k : jsstring) (a b : list (jsstring * A)) :
  lookup k (a ++ b) = match lookup k a with Some v => Some v | None => lookup k b end.
Proof.
  induction a as [|[k' v] a IH]; [reflexivity|].
  simpl. destruct (str_eqb k' k); [reflexivity|exact IH].
Qed.

Lemma lookup_some_in {A : Type} (k : jsstring) (l : list (jsstring * A)) (v : A) :
  lookup k l = Some v -> In (k, v) l.
Proof.
  induction l as [|[k' v'] l IH]; [discriminate|].
  simpl. destruct (str_eqb k' k) eqn:E.
  - intros H. inversion H. subst. apply str_eqb_eq in E. subst. now left.
  - intros H. right. now apply IH.
Qed.

Lemma validate_keys_ext (keys : Joi.ObjectSchema) (f1 f2 : list (jsstring * json)) :
  (forall key child, In (key, child) keys ->
     Joi.validate_child child [Joi.Key key] (lookup key f1)
     = Joi.validate_child child [Joi.Key key] (lookup key f2)) ->
  Joi.validate_keys keys f1 = Joi.validate_keys keys f2.
Proof.
  induction keys as [|[key child] rest IH]; intros H; [reflexivity|].
  simpl. rewrite IH by (intros; apply H; now right).
  rewrite (H key child) by now left. reflexivity.
Qed.

(** For every declared key, a default supplied explicitly validates to the
    same value as the property left out. *)
Lemma default_supplied (key : jsstring) (child : Joi.Schema) (v : json) :
  In (key, child) chatSchema -> In (key, v) optional_defaults ->
  Joi.validate_child child [Joi.Key key] (Some v)
  = Joi.validate_child child [Joi.Key key] None.
Proof.
  intros Hc Hv. unfold optional_defaults in Hv. cbn [In] in Hv.
  unfold chatSchema in Hc. cbn [In] in Hc.
  destruct Hc as [Hc|[Hc|[Hc|[Hc|[Hc|[]]]]]]; injection Hc as <- <-;
    destruct Hv as [Hv|[Hv|[Hv|[Hv|[]]]]]; try discriminate Hv;
    injection Hv as <-; reflexivity.
Qed.

Lemma supplied_same_child (fields supplied : list (jsstring * json))
      (key : jsstring) (child : Joi.Schema) :
  incl supplied optional_defaults ->
  In (key, child) chatSchema ->
  Joi.validate_child child [Joi.Key key] (lookup key (fields ++ supplied))
  = Joi.validate_child child [Joi.Key key] (lookup key fields).
Proof.
  intros Hs Hc. rewrite lookup_app.
  destruct (lookup key fields) as [v|] eqn:E; [reflexivity|].
  destruct (lookup key supplied) as [v|] eqn:E'; [|reflexivity].
  apply lookup_some_in in E'. apply Hs in E'.
  now apply default_supplied.
Qed.

Lemma filter_none {A : Type} (f : A -> bool) (l : list A) :
  (forall x, In x l -> f x = false) -> filter f l = [].
Proof.
  induction l as [|x l IH]; intros H; [reflexivity|].
  simpl. rewrite (H x) by now left. apply IH. intros y Hy. apply H. now right.
Qed.

Lemma supplied_all_declared (supplied : list (jsstring * json)) :
  incl supplied optional_defaults ->
  Joi.unknown_keys chatSchema supplied = [].
Proof.
  intros Hs. unfold Joi.unknown_keys. apply filter_none.
  intros k Hk. apply in_map_iff in Hk as ([k' v] & <- & Hk). apply Hs in Hk.
  apply negb_false_iff. apply mem_true.
  apply (in_map fst) in Hk. simpl in Hk. simpl. tauto.
Qed.

Lemma unknown_keys_app (keys : Joi.ObjectSchema) (a b : list (jsstring * json)) :
  Joi.unknown_keys keys (a ++ b) = Joi.unknown_keys keys a ++ Joi.unknown_keys keys b.
Proof. unfold Joi.unknown_keys. now rewrite map_app, filter_app. Qed.

Lemma validate_supplied (fields supplied : list (jsstring * json)) :
  incl supplied optional_defaults ->
  Joi.validate chatSchema (BObject (fields ++ supplied))
  = Joi.validate chatSchema (BObject fields).
Proof.
  intros Hs. unfold Joi.validate.
  rewrite (validate_keys_ext chatSchema (fields ++ supplied) fields)
    by (intros; now apply supplied_same_child).
  rewrite unknown_keys_app, (supplied_all_declared supplied Hs).
  now rewrite app_nil_r.
Qed.

(** C5: take a valid request that leaves out some of the optional
    properties; the request that gives those properties their default
    values ("apa", "balanced", "10", the empty list) is valid too, and both
    call the remote service with exactly the same system prompt. *)
Theorem defaults_same_prompt (fields supplied : list (jsstring * json))
        (value : list (jsstring * Joi.Value)) :
  incl supplied optional_defaults ->
  (forall k v, In (k, v) supplied -> lookup k fields = None) ->
  Joi.validate chatSchema (BObject fields) = Joi.Passed value ->
  exists r,
    receive (BObject fields)
    = (Racing, [SetTimeout 30000; GenerateText model_name (systemPrompt r) (question r)])
    /\ receive (BObject (fields ++ supplied))
       = (Racing, [SetTimeout 30000; GenerateText model_name (systemPrompt r) (question r)]).
Proof.
  intros Hs _ H.
  destruct (receive_valid _ _ H) as (r & _ & E). exists r. split; [exact E|].
  rewrite <- E. unfold receive. now rewrite validate_supplied.
Qed.

Lemma defaults_same_prompt_witness :
  let fields := [ (lit "question", JStr (lit "What is cognitive behavioural therapy?"));
                  (lit "recency", JStr (lit "all")) ] in
  let supplied := [ (lit "citationStyle", JStr (lit "apa")); (lit "materials", JArr []) ] in
  incl supplied optional_defaults
  /\ (forall k v, In (k, v) supplied -> lookup k fields = None)
  /\ (exists value, Joi.validate chatSchema (BObject fields) = Joi.Passed value)
  /\ remote_calls (snd (receive (BObject (fields ++ supplied))))
     = remote_calls (snd (receive (BObject fields))).
Proof.
  intros fields supplied.
  assert (Hs : incl supplied optional_defaults).
  { intros x [Hx|[Hx|[]]]; subst x; simpl; tauto. }
  assert (Ha : forall k v, In (k, v) supplied -> lookup k fields = None).
  { intros k v [Hx|[Hx|[]]]; inversion Hx; reflexivity. }
  assert (H : Joi.validate chatSchema (BObject fields)
              = Joi.Passed
                  [ (lit "question", Joi.VString (lit "What is cognitive behavioural therapy?"));
                    (lit "citationStyle", Joi.VString (lit "apa"));
                    (lit "citationMode", Joi.VString (lit "balanced"));
                    (lit "recency", Joi.VString (lit "all"));
                    (lit "materials", Joi.VArray []) ]) by reflexivity.
  split; [exact Hs|]. split; [exact Ha|]. split; [eexists; exact H|].
  destruct (defaults_same_prompt fields supplied _ Hs Ha H) as (r & E1 & E2).
  rewrite E1, E2. reflexivity.
Defined.

(** ** The ingestion script *)

Lemma split_from_skip (sep pre s cur : jsstring) :
  split_from sep (length pre) cur (pre ++ s) = split_from sep 0 cur s.
Proof.
  induction pre as [|c pre IH]; [reflexivity|]. simpl. exact IH.
Qed.

Lemma split_from_not_nil (sep : jsstring) (skip : nat) (cur s : jsstring) :
  split_from sep skip cur s <> [].
Proof.
  revert skip cur. induction s as [|c r IH]; intros skip cur; simpl; [discriminate|].
  destruct skip as [|k]; [|apply IH].
  destruct (starts_with sep (c :: r)); [discriminate|apply IH].
Qed.

Lemma join_split_from (sep : jsstring) (n : nat) :
  sep <> [] ->
  forall s cur, length s <= n -> join sep (split_from sep 0 cur s) = rev cur ++ s.
Proof.
  intros Hsep. induction n as [|n IH]; intros s cur Hn.
  - destruct s; [|simpl in Hn; lia]. simpl. now rewrite app_nil_r.
  - destruct s as [|c r]; [simpl; now rewrite app_nil_r|].
    cbn [split_from].
    destruct (starts_with sep (c :: r)) eqn:E.
    + destruct (starts_with_inv _ _ E) as [s' Hs'].
      destruct sep as [|x sep']; [congruence|].
      simpl in Hs'. injection Hs' as -> ->.
      replace (length (x :: sep') - 1) with (length sep') by (simpl; lia).
      rewrite split_from_skip.
      rewrite join_cons by apply split_from_not_nil.
      rewrite IH by (simpl in Hn; rewrite length_app in Hn; lia).
      simpl. reflexivity.
    + rewrite IH by (simpl in Hn; lia).
      simpl. now rewrite <- app_assoc.
Qed.

(** The fragments, put together again with the separator between them,
    are the text. *)
Lemma join_split (sep s : jsstring) : sep <> [] -> join sep (split sep s) = s.
Proof.
  intros H. unfold split. now rewrite (join_split_from sep (length s) H s []).
Qed.

Lemma upload_all (generateEmbedding : jsstring -> option Embedding) (upsert : jsstring -> bool)
      (file : jsstring) (cs : list jsstring) (i : nat) :
  (forall c, In c cs -> generateEmbedding c <> None) -> (forall id, upsert id = true) ->
  embedded (fst (upload generateEmbedding upsert file i cs)) = cs
  /\ snd (upload generateEmbedding upsert file i cs) = true.
Proof.
  intros He Hu. revert i. induction cs as [|c rest IH]; intros i; [now split|].
  cbn [upload]. destruct (generateEmbedding c) as [v|] eqn:E.
  - rewrite Hu.
    destruct (IH (fun x Hx => He x (or_intror Hx)) (S i)) as [IH1 IH2].
    destruct (upload generateEmbedding upsert file (S i) rest) as [out done].
    simpl in *. now rewrite IH1.
  - exfalso. apply (He c); [now left|exact E].
Qed.

(** C8, as the script has it: of the fragments between blank lines, the
    chunks are exactly those longer than 50 characters, so a fragment of 50
    characters or fewer is skipped; when the embedding service and the
    index accept every call, the chunks are embedded one by one, in
    order. *)
Theorem chunks_longer_than_50 (generateEmbedding : jsstring -> option Embedding)
        (upsert : jsstring -> bool) (file text : jsstring) :
  (forall c, In c (split (lf ++ lf) text) -> (In c (chunks text) <-> 50 < length c))
  /\ ((forall c, In c (chunks text) -> generateEmbedding c <> None) ->
      (forall id, upsert id = true) ->
      embedded (fst (upload generateEmbedding upsert file 0 (chunks text))) = chunks text).
Proof.
  split.
  - intros c Hc. unfold chunks. rewrite filter_In, Nat.ltb_lt. tauto.
  - intros He Hu. exact (proj1 (upload_all generateEmbedding upsert file (chunks text) 0 He Hu)).
Qed.

Lemma chunks_longer_than_50_witness :
  let generateEmbedding := fun _ : jsstring => Some ([] : Embedding) in
  let upsert := fun _ : jsstring => true in
  let long := repeat 97%N 51 in
  let text := lit "Title" ++ lf ++ lf ++ long in
  (forall c, In c (chunks text) -> generateEmbedding c <> None)
  /\ (forall id, upsert id = true)
  /\ embedded (fst (upload generateEmbedding upsert (lit "notes.txt") 0 (chunks text))) = [long].
Proof.
  intros generateEmbedding upsert long text.
  assert (He : forall c, In c (chunks text) -> generateEmbedding c <> None) by discriminate.
  assert (Hu : forall id, upsert id = true) by reflexivity.
  split; [exact He|]. split; [exact Hu|].
  exact (proj2 (chunks_longer_than_50 generateEmbedding upsert (lit "notes.txt") text) He Hu).
Defined.

(** A fragment of exactly 50 characters is "at least 50 characters" long,
    and the script skips it. *)
Lemma fragment_of_50_skipped :
  let fragment := repeat 97%N 50 in
  In fragment (split (lf ++ lf) fragment)
  /\ 50 <= length fragment
  /\ ~ In fragment (chunks fragment)
  /\ fst (seed (fun _ => Some []) (fun _ => true) [(lit "notes.txt", fragment)]) = [].
Proof.
  intros fragment. split; [left; reflexivity|]. split; [apply Nat.leb_le; reflexivity|].
  split; [|reflexivity].
  assert (E : chunks fragment = []) by reflexivity. rewrite E. exact (fun H => H).
Qed.

(** ** What the schema accepts *)

Lemma string_value (sch : Joi.StringSchema) (inherited : Joi.Messages)
      (p : Joi.Path) (item : option json) (x : jsstring) :
  Joi.validate_string sch inherited p item = Joi.Passed (Some x) ->
  item = Some (JStr x) \/ (item = None /\ Joi.s_default sch = Some x).
Proof.
  unfold Joi.validate_string. intros H.
  destruct item as [v|].
  - left. destruct v as [| b | q | s | l | f]; try discriminate.
    destruct (mem s (Joi.s_valids sch)).
    + now inversion H.
    + destruct s as [|c s].
      * destruct (existsb Joi.min_is_zero (Joi.s_rules sch)); [|discriminate].
        apply finalize_passed_inv in H as [_ H]. now inversion H.
      * apply finalize_passed_inv in H as [_ H]. now inversion H.
  - right. destruct (Joi.s_required sch); [discriminate|]. now inversion H.
Qed.

Lemma string_defined (sch : Joi.StringSchema) (inherited : Joi.Messages)
      (p : Joi.Path) (v : json) :
  Joi.validate_string sch inherited p (Some v) <> Joi.Passed None.
Proof.
  unfold Joi.validate_string. intros H.
  destruct v as [| b | q | s | l | f]; try discriminate.
  destruct (mem s (Joi.s_valids sch)); [discriminate|].
  destruct s as [|c s].
  - destruct (existsb Joi.min_is_zero (Joi.s_rules sch)); [|discriminate].
    apply finalize_passed_inv in H as [_ H]. discriminate.
  - apply finalize_passed_inv in H as [_ H]. discriminate.
Qed.

(** A required string with a minimum and a maximum length. *)
Lemma bounded_string_errors (sch : Joi.StringSchema) (inherited : Joi.Messages)
      (p : Joi.Path) (item : option json) (a b : nat) :
  Joi.s_required sch = true -> Joi.s_only sch = false -> Joi.s_valids sch = [] ->
  Joi.s_rules sch = [Joi.Rmin a; Joi.Rmax b] -> 1 <= a ->
  outcome_errors (Joi.validate_string sch inherited p item) = []
  <-> match item with
      | Some (JStr s) => (a <=? length s) && (length s <=? b)
      | _ => false
      end = true.
Proof.
  intros Hr Ho Hv Hrules Ha. unfold Joi.validate_string. rewrite Hr, Ho, Hv, Hrules.
  destruct item as [v|]; [|split; discriminate].
  destruct v as [| x | q | s | l | f];
    try (split; [intros H; now apply app_eq_nil in H as [_ H]|discriminate]).
  cbn [mem existsb].
  destruct s as [|c s].
  - destruct a as [|a]; [lia|]. cbn [existsb Joi.min_is_zero orb].
    split; [intros H; now apply app_eq_nil in H as [_ H]|discriminate].
  - rewrite outcome_errors_finalize. cbn [flat_map Joi.string_rule_errors].
    destruct (a <=? length (c :: s)); destruct (length (c :: s) <=? b);
      cbn; split; (discriminate || reflexivity).
Qed.

(** An optional string restricted to allowed values. *)
Lemma only_errors (sch : Joi.StringSchema) (inherited : Joi.Messages)
      (p : Joi.Path) (item : option json) :
  Joi.s_required sch = false -> Joi.s_only sch = true ->
  outcome_errors (Joi.validate_string sch inherited p item) = []
  <-> option_ok (Joi.s_valids sch) item = true.
Proof.
  intros Hr Ho. destruct item as [v|].
  - cbn [option_ok]. destruct (one_of (Joi.s_valids sch) v) eqn:E.
    + split; [reflexivity|intros _].
      destruct v as [| x | q | s | l | f]; try discriminate.
      unfold Joi.validate_string. cbn [one_of] in E. now rewrite E.
    + split; [|discriminate]. intros H.
      pose proof (only_rejected sch inherited p v Ho E) as Hin.
      rewrite H in Hin. contradiction.
  - unfold Joi.validate_string. rewrite Hr. split; reflexivity.
Qed.

(** The entries of [materials]: an entry passes exactly when it is a string
    of 1 to 500 characters. *)
Lemma material_errors (prefs : Joi.Messages) (p : Joi.Path) (x : json) :
  outcome_errors (Joi.validate_string material_schema prefs p (Some x)) = []
  <-> material_ok x = true.
Proof.
  destruct x as [| b | q | s | l | f]; try (split; discriminate).
  destruct s as [|c s]; [split; discriminate|].
  unfold Joi.validate_string. cbn -[Nat.leb length lit].
  rewrite outcome_errors_finalize.
  destruct (length (c :: s) <=? 500); cbn; split; (discriminate || reflexivity).
Qed.

Lemma items_errors (prefs : Joi.Messages) (p : Joi.Path) (i : nat) (l : list json) :
  snd (Joi.validate_items material_schema prefs p i l) = []
  <-> forallb material_ok l = true.
Proof.
  revert i. induction l as [|x rest IH]; intros i; [split; reflexivity|].
  cbn [Joi.validate_items forallb]. specialize (IH (S i)).
  destruct (Joi.validate_items material_schema prefs p (S i) rest) as [vals errs].
  pose proof (material_errors prefs (p ++ [Joi.Index i]) x) as Hx.
  destruct (Joi.validate_string material_schema prefs (p ++ [Joi.Index i]) (Some x))
    as [[s|]|es] eqn:E; cbn [snd outcome_errors] in *.
  - rewrite (proj1 Hx eq_refl). exact IH.
  - now apply string_defined in E.
  - split.
    + intros H. apply app_eq_nil in H as [H1 H2].
      rewrite (proj1 Hx H1). now apply IH.
    + intros H. apply andb_true_iff in H as [H1 H2].
      rewrite (proj2 Hx H1). now apply IH.
Qed.

Lemma items_values (item : Joi.StringSchema) (prefs : Joi.Messages) (p : Joi.Path)
      (i : nat) (l : list json) :
  snd (Joi.validate_items item prefs p i l) = [] ->
  l = map JStr (fst (Joi.validate_items item prefs p i l)).
Proof.
  revert i. induction l as [|x rest IH]; intros i H; [reflexivity|].
  cbn [Joi.validate_items] in *. specialize (IH (S i)).
  destruct (Joi.validate_items item prefs p (S i) rest) as [vals errs].
  destruct (Joi.validate_string item prefs (p ++ [Joi.Index i]) (Some x))
    as [[s|]|es] eqn:E; cbn [fst snd] in *.
  - apply string_value in E as [E|[E _]]; [|discriminate].
    inversion E. subst x. cbn [map]. f_equal. now apply IH.
  - now apply string_defined in E.
  - apply app_eq_nil in H as [H1 _]. apply validate_string_failed in E. contradiction.
Qed.

Lemma array_value (sch : Joi.ArraySchema) (inherited : Joi.Messages) (p : Joi.Path)
      (item : option json) (l : list jsstring) :
  Joi.validate_array sch inherited p item = Joi.Passed (Some l) ->
  item = Some (JArr (map JStr l)) \/ (item = None /\ Joi.a_default sch = Some l).
Proof.
  unfold Joi.validate_array. intros H.
  destruct item as [v|].
  - left. destruct v as [| b | q | s | js | f]; try discriminate.
    pose proof (items_values (Joi.a_items sch) (Joi.a_messages sch ++ inherited) p 0 js)
      as Hv.
    destruct (Joi.validate_items _ _ _ 0 js) as [vals errs].
    apply finalize_passed_inv in H as [He H]. inversion H. subst l.
    apply app_eq_nil in He as [He _]. cbn [fst snd] in Hv.
    now rewrite (Hv He) at 1.
  - right. now inversion H.
Qed.

(** The materials as the schema has them: an array of at most 20 entries. *)
Lemma materials_errors (sch : Joi.ArraySchema) (p : Joi.Path) (item : option json) :
  Joi.a_items sch = material_schema -> Joi.a_max sch = Some 20 ->
  outcome_errors (Joi.validate_array sch [] p item) = []
  <-> materials_ok item = true.
Proof.
  intros Hi Hm. unfold Joi.validate_array. rewrite Hi, Hm.
  destruct item as [v|]; [|split; reflexivity].
  destruct v as [| b | q | s | l | f]; try (split; discriminate).
  pose proof (items_errors (Joi.a_messages sch ++ []) p 0 l) as Hl.
  destruct (Joi.validate_items material_schema _ p 0 l) as [vals errs].
  rewrite outcome_errors_finalize. cbn [snd materials_ok] in *.
  split.
  - intros H. apply app_eq_nil in H as [H1 H2].
    rewrite (proj1 Hl H1). destruct (length l <=? 20); [reflexivity|discriminate].
  - intros H. apply andb_true_iff in H as [H1 H2].
    rewrite (proj2 Hl H1), H2. reflexivity.
Qed.

Lemma app_nil_iff {A : Type} (a b : list A) : a ++ b = [] <-> a = [] /\ b = [].
Proof.
  split; [apply app_eq_nil|]. now intros [-> ->].
Qed.

Lemma filter_negb_nil {A : Type} (g : A -> bool) (l : list A) :
  filter (fun x => negb (g x)) l = [] <-> forallb g l = true.
Proof.
  induction l as [|x l IH]; [split; reflexivity|].
  simpl. destruct (g x); simpl; [exact IH|split; discriminate].
Qed.

Lemma map_nil_iff {A B : Type} (f : A -> B) (l : list A) : map f l = [] <-> l = [].
Proof. destruct l; split; (reflexivity || discriminate). Qed.

(** The validator finds no error exactly in the acceptable bodies. *)
Lemma all_errors_acceptable (fields : list (jsstring * json)) :
  all_errors chatSchema fields = [] <-> acceptable fields = true.
Proof.
  unfold all_errors, acceptable. rewrite app_nil_iff, map_nil_iff.
  unfold Joi.unknown_keys.
  change (map fst chatSchema) with declared.
  rewrite filter_negb_nil.
  unfold chatSchema. cbn [flat_map fst snd].
  rewrite !app_nil_iff, !andb_true_iff.
  rewrite !child_errors_string, child_errors_array.
  rewrite (bounded_string_errors _ _ _ _ 10 5000) by (reflexivity || lia).
  rewrite !only_errors by reflexivity.
  rewrite materials_errors by reflexivity.
  cbn [Joi.s_valids Joi.valid Joi.default Joi.messages Joi.string app].
  tauto.
Qed.


(** The validated request, read back from the body. *)
Lemma validated_values (fields : list (jsstring * json))
      (value : list (jsstring * Joi.Value)) (r : ChatRequest) :
  Joi.validate chatSchema (BObject fields) = Joi.Passed value ->
  destructure value = Some r ->
  lookup (lit "question") fields = Some (JStr (question r))
  /\ given_or_default (lit "citationStyle") fields (lit "apa") (citationStyle r)
  /\ given_or_default (lit "citationMode") fields (lit "balanced") (citationMode r)
  /\ given_or_default (lit "recency") fields (lit "10") (recency r)
  /\ (lookup (lit "materials") fields = Some (JArr (map JStr (materials r)))
      \/ (lookup (lit "materials") fields = None /\ materials r = [])).
Proof.
  rewrite validate_object. intros H Hr.
  apply finalize_passed_inv in H as [He ->].
  unfold all_errors in He. apply app_eq_nil in He as [He _].
  unfold chatSchema in He. cbn [flat_map fst snd] in He.
  apply app_eq_nil in He as [H1 He]. apply app_eq_nil in He as [H2 He].
  apply app_eq_nil in He as [H3 He]. apply app_eq_nil in He as [H4 He].
  apply app_eq_nil in He as [H5 _].
  apply string_child_passed in H1 as [q E1]; [|left; reflexivity].
  apply string_child_passed in H2 as [cs E2]; [|right; discriminate].
  apply string_child_passed in H3 as [cm E3]; [|right; discriminate].
  apply string_child_passed in H4 as [rc E4]; [|right; discriminate].
  apply array_child_passed in H5 as [ms E5]; [|discriminate].
  unfold chatSchema in Hr. cbn [Joi.validate_keys] in Hr.
  rewrite E5, E4, E3, E2, E1 in Hr.
  assert (Er : r = mkChatRequest q cs cm rc ms) by (inversion Hr; reflexivity).
  subst r. cbn [question citationStyle citationMode recency materials].
  clear Hr.
  cbn [Joi.validate_child] in E1, E2, E3, E4, E5.
  repeat split.
  - destruct (Joi.validate_string _ [] _ (lookup (lit "question") fields))
      as [[x|]|es] eqn:E; try discriminate.
    inversion E1; subst x. apply string_value in E as [E|[_ E]]; [exact E|discriminate].
  - destruct (Joi.validate_string _ [] _ (lookup (lit "citationStyle") fields))
      as [[x|]|es] eqn:E; try discriminate.
    inversion E2; subst x. apply string_value in E as [E|[E Ed]].
    + now left.
    + right. split; [exact E|]. now inversion Ed.
  - destruct (Joi.validate_string _ [] _ (lookup (lit "citationMode") fields))
      as [[x|]|es] eqn:E; try discriminate.
    inversion E3; subst x. apply string_value in E as [E|[E Ed]].
    + now left.
    + right. split; [exact E|]. now inversion Ed.
  - destruct (Joi.validate_string _ [] _ (lookup (lit "recency") fields))
      as [[x|]|es] eqn:E; try discriminate.
    inversion E4; subst x. apply string_value in E as [E|[E Ed]].
    + now left.
    + right. split; [exact E|]. now inversion Ed.
  - destruct (Joi.validate_array _ [] _ (lookup (lit "materials") fields))
      as [[x|]|es] eqn:E; try discriminate.
    inversion E5; subst x. apply array_value in E as [E|[E Ed]].
    + now left.
    + right. split; [exact E|]. now inversion Ed.
Qed.

Lemma forallb_material_bounds (ms : list jsstring) :
  forallb material_ok (map JStr ms) = true ->
  Forall (fun m => 1 <= length m <= 500) ms.
Proof.
  induction ms as [|m ms IH]; intros H; [constructor|].
  cbn [map forallb material_ok] in H.
  apply andb_true_iff in H as [Hm H]. apply andb_true_iff in Hm as [H1 H2].
  apply Nat.leb_le in H1. apply Nat.leb_le in H2.
  constructor; [lia|now apply IH].
Qed.

Lemma given_allowed (key : jsstring) (fields : list (jsstring * json))
      (default x : jsstring) (allowed : list jsstring) :
  given_or_default key fields default x ->
  option_ok allowed (lookup key fields) = true -> In default allowed ->
  In x allowed.
Proof.
  intros [H|[_ ->]] Ho Hd; [|exact Hd].
  rewrite H in Ho. cbn [option_ok one_of] in Ho. now apply mem_true.
Qed.

(** X2: the request that comes out of validation holds the question of the
    body, of 10 to 5000 characters; each option is the string given in the
    body, or its default when the body leaves it out, and is one of the
    allowed values; the materials are those of the body (none when left
    out), at most 20, each of 1 to 500 characters. *)
Theorem validated_request_sound (fields : list (jsstring * json))
        (value : list (jsstring * Joi.Value)) (r : ChatRequest) :
  Joi.validate chatSchema (BObject fields) = Joi.Passed value ->
  destructure value = Some r ->
  (lookup (lit "question") fields = Some (JStr (question r))
   /\ 10 <= length (question r) <= 5000)
  /\ (given_or_default (lit "citationStyle") fields (lit "apa") (citationStyle r)
      /\ In (citationStyle r) [lit "apa"; lit "mla"; lit "chicago"])
  /\ (given_or_default (lit "citationMode") fields (lit "balanced") (citationMode r)
      /\ In (citationMode r) [lit "strict"; lit "balanced"; lit "flexible"])
  /\ (given_or_default (lit "recency") fields (lit "10") (recency r)
      /\ In (recency r) [lit "5"; lit "10"; lit "15"; lit "all"])
  /\ ((lookup (lit "materials") fields = Some (JArr (map JStr (materials r)))
       \/ (lookup (lit "materials") fields = None /\ materials r = []))
      /\ length (materials r) <= 20
      /\ Forall (fun m => 1 <= length m <= 500) (materials r)).
Proof.
  intros H Hr.
  destruct (validated_values fields value r H Hr) as (Hq & Hcs & Hcm & Hrc & Hms).
  assert (Ha : acceptable fields = true).
  { apply all_errors_acceptable. rewrite validate_object in H.
    now apply finalize_passed_inv in H as [H _]. }
  unfold acceptable in Ha. rewrite !andb_true_iff in Ha.
  destruct Ha as (((((A1 & A2) & A3) & A4) & A5) & _).
  repeat split; try assumption.
  - rewrite Hq in A1. cbn [question_ok] in A1.
    apply andb_true_iff in A1 as [A1 _]. now apply Nat.leb_le.
  - rewrite Hq in A1. cbn [question_ok] in A1.
    apply andb_true_iff in A1 as [_ A1]. now apply Nat.leb_le.
  - apply (given_allowed _ _ _ _ _ Hcs A2). left. reflexivity.
  - apply (given_allowed _ _ _ _ _ Hcm A3). right. left. reflexivity.
  - apply (given_allowed _ _ _ _ _ Hrc A4). right. left. reflexivity.
  - destruct Hms as [Hms|[_ ->]]; [|simpl; lia].
    rewrite Hms in A5. cbn [materials_ok] in A5.
    apply andb_true_iff in A5 as [_ A5]. apply Nat.leb_le in A5.
    now rewrite length_map in A5.
  - destruct Hms as [Hms|[_ ->]]; [|constructor].
    rewrite Hms in A5. cbn [materials_ok] in A5.
    apply andb_true_iff in A5 as [A5 _]. now apply forallb_material_bounds.
Qed.

Lemma validated_request_sound_witness :
  let fields := [ (lit "question", JStr (lit "What is cognitive behavioural therapy?"));
                  (lit "recency", JStr (lit "all"));
                  (lit "materials", JArr [JStr (lit "Kring 2021")]) ] in
  let r := mkChatRequest (lit "What is cognitive behavioural therapy?")
                         (lit "apa") (lit "balanced") (lit "all") [lit "Kring 2021"] in
  (exists value, Joi.validate chatSchema (BObject fields) = Joi.Passed value
                 /\ destructure value = Some r)
  /\ 10 <= length (question r) <= 5000
  /\ length (materials r) <= 20.
Proof.
  intros fields r.
  assert (H : Joi.validate chatSchema (BObject fields)
              = Joi.Passed
                  [ (lit "question", Joi.VString (lit "What is cognitive behavioural therapy?"));
                    (lit "citationStyle", Joi.VString (lit "apa"));
                    (lit "citationMode", Joi.VString (lit "balanced"));
                    (lit "recency", Joi.VString (lit "all"));
                    (lit "materials", Joi.VArray [lit "Kring 2021"]) ]) by reflexivity.
  assert (Hr : destructure
                 [ (lit "question", Joi.VString (lit "What is cognitive behavioural therapy?"));
                   (lit "citationStyle", Joi.VString (lit "apa"));
                   (lit "citationMode", Joi.VString (lit "balanced"));
                   (lit "recency", Joi.VString (lit "all"));
                   (lit "materials", Joi.VArray [lit "Kring 2021"]) ] = Some r)
    by reflexivity.
  split; [eexists; split; [exact H|exact Hr]|].
  destruct (validated_request_sound fields _ r H Hr) as ((_ & Hq) & _ & _ & _ & _ & Hm & _).
  split; [exact Hq|exact Hm].
Defined.

(** ** One request, one response *)

(** X3: whatever the body and whatever the events, the handler sends at
    most one response and calls the remote service at most once; as soon as
    one event has arrived it has sent exactly one response and returned. *)
Theorem one_response_per_request (req_body : ReqBody) (events : list Event) :
  length (responses (snd (handle req_body events))) <= 1
  /\ length (remote_calls (snd (handle req_body events))) <= 1
  /\ (events <> [] ->
      length (responses (snd (handle req_body events))) = 1
      /\ fst (handle req_body events) = Finished).
Proof.
  unfold handle, receive.
  destruct (Joi.validate chatSchema req_body) as [value|details].
  - destruct (destructure value) as [r|].
    + destruct events as [|e rest].
      * cbn. split; [lia|]. split; [lia|]. intros Hne. congruence.
      * cbn [deliver step]. rewrite deliver_finished. cbn.
        split; [lia|]. split; [lia|]. intros _. split; reflexivity.
    + rewrite deliver_finished. cbn.
      split; [lia|]. split; [lia|]. intros _. split; reflexivity.
  - rewrite deliver_finished. cbn.
    split; [lia|]. split; [lia|]. intros _. split; reflexivity.
Qed.

Lemma one_response_per_request_witness :
  let req_body := BObject [ (lit "question", JStr (lit "What is cognitive behavioural therapy?")) ] in
  let events := [ RemoteSettled (Rejected (Error (lit "socket hang up"))); TimerFired ] in
  events <> []
  /\ length (responses (snd (handle req_body events))) = 1.
Proof.
  intros req_body events.
  assert (H : events <> []) by discriminate.
  split; [exact H|].
  exact (proj1 (proj2 (proj2 (one_response_per_request req_body events)) H)).
Defined.

(** X4: for a valid request whose remote call is fulfilled before the timer
    fires, the only response is 200 with the generated text as [answer],
    whatever happens later. *)
Theorem answer_returned (req_body : ReqBody) (value : list (jsstring * Joi.Value))
        (text : jsstring) (later : list Event) :
  Joi.validate chatSchema req_body = Joi.Passed value ->
  responses (snd (handle req_body (RemoteSettled (Fulfilled text) :: later)))
  = [ mkResponse 200 (JObj [ (lit "answer", JStr text) ]) ].
Proof.
  intros H.
  destruct (handle_valid _ _ (RemoteSettled (Fulfilled text)) later H) as (r & _ & E).
  now rewrite E.
Qed.

Lemma answer_returned_witness :
  let req_body := BObject [ (lit "question", JStr (lit "What is cognitive behavioural therapy?")) ] in
  (exists value, Joi.validate chatSchema req_body = Joi.Passed value)
  /\ responses (snd (handle req_body
                       [RemoteSettled (Fulfilled (lit "CBT is a talking therapy.")); TimerFired]))
     = [ mkResponse 200 (JObj [ (lit "answer", JStr (lit "CBT is a talking therapy.")) ]) ].
Proof.
  intros req_body.
  assert (H : Joi.validate chatSchema req_body
              = Joi.Passed
                  [ (lit "question", Joi.VString (lit "What is cognitive behavioural therapy?"));
                    (lit "citationStyle", Joi.VString (lit "apa"));
                    (lit "citationMode", Joi.VString (lit "balanced"));
                    (lit "recency", Joi.VString (lit "10"));
                    (lit "materials", Joi.VArray []) ]) by reflexivity.
  split; [eexists; exact H|].
  exact (answer_returned req_body _ (lit "CBT is a talking therapy.") [TimerFired] H).
Defined.

(** X5: the question of the body is what the remote service is asked: a
    valid object body gives exactly one remote call, whatever the events,
    with the system prompt of the validated request and the question as it
    stands in the body. *)
Theorem question_forwarded (fields : list (jsstring * json))
        (value : list (jsstring * Joi.Value)) (events : list Event) :
  Joi.validate chatSchema (BObject fields) = Joi.Passed value ->
  exists r,
    destructure value = Some r
    /\ remote_calls (snd (handle (BObject fields) events)) = [(systemPrompt r, question r)]
    /\ lookup (lit "question") fields = Some (JStr (question r)).
Proof.
  intros H. destruct (receive_valid _ _ H) as (r & Hr & E). exists r.
  split; [exact Hr|]. split.
  - unfold handle. rewrite E. destruct events as [|e rest]; [reflexivity|].
    cbn [deliver step]. now rewrite deliver_finished.
  - exact (proj1 (validated_values fields value r H Hr)).
Qed.

Lemma question_forwarded_witness :
  let fields := [ (lit "question", JStr (lit "What is cognitive behavioural therapy?")) ] in
  (exists value, Joi.validate chatSchema (BObject fields) = Joi.Passed value)
  /\ map snd (remote_calls (snd (handle (BObject fields) [TimerFired])))
     = [lit "What is cognitive behavioural therapy?"].
Proof.
  intros fields.
  assert (H : Joi.validate chatSchema (BObject fields)
              = Joi.Passed
                  [ (lit "question", Joi.VString (lit "What is cognitive behavioural therapy?"));
                    (lit "citationStyle", Joi.VString (lit "apa"));
                    (lit "citationMode", Joi.VString (lit "balanced"));
                    (lit "recency", Joi.VString (lit "10"));
                    (lit "materials", Joi.VArray []) ]) by reflexivity.
  split; [eexists; exact H|].
  destruct (question_forwarded fields _ [TimerFired] H) as (r & Hr & Hc & Hq).
  rewrite Hc. cbn [map snd]. f_equal.
  assert (Hl : lookup (lit "question") fields
               = Some (JStr (lit "What is cognitive behavioural therapy?"))) by reflexivity.
  rewrite Hl in Hq. now inversion Hq.
Defined.


(** X7: the trim takes away the line feed at each end of the template and
    nothing else: the prompt is the fixed text with the values of the
    request in between, as they are, also when a value starts or ends with
    white space. *)
Theorem prompt_is_template (r : ChatRequest) :
  systemPrompt r
  = prompt_goals ++ citationStyle r
    ++ prompt_rules ++ citationStyle r
    ++ prompt_strictness ++ citationMode r
    ++ prompt_recency ++ recency_clause (recency r)
    ++ prompt_materials ++ materials_clause (materials r)
    ++ prompt_output.
Proof. exact (systemPrompt_text r). Qed.

(** ** Errors in the entries of [materials] *)

Lemma items_errors_at (item : Joi.StringSchema) (prefs : Joi.Messages) (p : Joi.Path)
      (l : list json) :
  forall (start i : nat) (v : json) (es : list Joi.Detail),
    nth_error l i = Some v ->
    Joi.validate_string item prefs (p ++ [Joi.Index (start + i)]) (Some v) = Joi.Failed es ->
    incl es (snd (Joi.validate_items item prefs p start l)).
Proof.
  induction l as [|x rest IH]; intros start i v es Hn He; [now destruct i|].
  cbn [Joi.validate_items].
  destruct i as [|i].
  - cbn in Hn. inversion Hn. subst x. rewrite Nat.add_0_r in He.
    destruct (Joi.validate_items item prefs p (S start) rest) as [vals errs].
    rewrite He. cbn [snd]. now apply incl_appl.
  - cbn in Hn. rewrite Nat.add_succ_r in He.
    specialize (IH (S start) i v es Hn He).
    destruct (Joi.validate_items item prefs p (S start) rest) as [vals errs].
    cbn [snd] in IH.
    destruct (Joi.validate_string item prefs (p ++ [Joi.Index start]) (Some x))
      as [[s|]|es']; cbn [snd]; auto.
    + now apply incl_tl.
    + now apply incl_appr.
Qed.

Lemma material_error_in (fields : list (jsstring * json)) (l : list json) (i : nat)
      (v : json) (es : list Joi.Detail) (d : Joi.Detail) :
  lookup (lit "materials") fields = Some (JArr l) ->
  nth_error l i = Some v ->
  Joi.validate_string material_schema
    [(Joi.ArrayMax, lit "Materials cannot exceed 20 items")]
    [Joi.Key (lit "materials"); Joi.Index i] (Some v) = Joi.Failed es ->
  In d es ->
  In d (all_errors chatSchema fields).
Proof.
  intros Hl Hn He Hd.
  eapply in_child_errors; [do 4 right; left; reflexivity|]. rewrite Hl.
  rewrite child_errors_array. unfold Joi.validate_array.
  cbn -[Nat.leb length lit Joi.validate_items].
  change (Joi.messages _ (Joi.max 500 Joi.string)) with material_schema.
  pose proof (items_errors_at material_schema
                [(Joi.ArrayMax, lit "Materials cannot exceed 20 items")]
                [Joi.Key (lit "materials")] l 0 i v es Hn He) as Hin.
  destruct (Joi.validate_items material_schema _ _ 0 l) as [vals errs].
  rewrite outcome_errors_finalize. apply in_or_app. left. now apply Hin.
Qed.

(** X8: an entry of [materials] that is not a string, or that is the empty
    string, is reported with its position in the array, and the request is
    answered by 400. *)
Theorem material_entry_reported (fields : list (jsstring * json)) (l : list json)
        (i : nat) (v : json) (events : list Event) :
  lookup (lit "materials") fields = Some (JArr l) ->
  nth_error l i = Some v ->
  (is_string v = false ->
   In (material_label i ++ lit " must be a string") (details_of fields)
   /\ handle (BObject fields) events = (Finished, [Send (rejection fields)]))
  /\ (v = JStr [] ->
      In (material_label i ++ lit " is not allowed to be empty") (details_of fields)
      /\ handle (BObject fields) events = (Finished, [Send (rejection fields)])).
Proof.
  intros Hl Hn. split.
  - intros Hv.
    assert (Hd : In (Joi.create_error
                       (Joi.s_messages material_schema
                        ++ [(Joi.ArrayMax, lit "Materials cannot exceed 20 items")])
                       Joi.StringBase [Joi.Key (lit "materials"); Joi.Index i] 0 [])
                    (all_errors chatSchema fields)).
    { eapply (material_error_in fields l i v); [exact Hl|exact Hn| |].
      - destruct v; try discriminate; reflexivity.
      - left. reflexivity. }
    split; [|exact (handle_invalid fields _ events Hd)].
    unfold details_of. apply in_map_iff. eexists. split; [|exact Hd].
    unfold material_label. cbn -[of_nat]. repeat rewrite <- app_assoc. reflexivity.
  - intros ->.
    assert (Hd : In (Joi.create_error
                       (Joi.s_messages material_schema
                        ++ [(Joi.ArrayMax, lit "Materials cannot exceed 20 items")])
                       Joi.StringEmpty [Joi.Key (lit "materials"); Joi.Index i] 0 [])
                    (all_errors chatSchema fields)).
    { eapply (material_error_in fields l i (JStr [])); [exact Hl|exact Hn| |].
      - reflexivity.
      - left. reflexivity. }
    split; [|exact (handle_invalid fields _ events Hd)].
    unfold details_of. apply in_map_iff. eexists. split; [|exact Hd].
    unfold material_label. cbn -[of_nat]. repeat rewrite <- app_assoc. reflexivity.
Qed.

Lemma material_entry_reported_witness :
  let l := [JStr (lit "Kring 2021"); JNum 7; JStr []] in
  let fields := [ (lit "question", JStr (lit "What is cognitive behavioural therapy?"));
                  (lit "materials", JArr l) ] in
  lookup (lit "materials") fields = Some (JArr l)
  /\ nth_error l 1 = Some (JNum 7)
  /\ is_string (JNum 7) = false
  /\ In (dq ++ lit "materials[1]" ++ dq ++ lit " must be a string") (details_of fields).
Proof.
  intros l fields.
  assert (Hl : lookup (lit "materials") fields = Some (JArr l)) by reflexivity.
  assert (Hn : nth_error l 1 = Some (JNum 7)) by reflexivity.
  split; [exact Hl|]. split; [exact Hn|]. split; [reflexivity|].
  exact (proj1 (proj1 (material_entry_reported fields l 1 (JNum 7) [] Hl Hn) eq_refl)).
Defined.

(** ** The ingestion script: identifiers *)

Lemma lit_inj (a b : string) : lit a = lit b -> a = b.
Proof.
  revert b. induction a as [|c a IH]; intros [|d b] H; try discriminate; [reflexivity|].
  cbn [lit] in H. injection H as Hc Hr. f_equal; [|now apply IH].
  rewrite <- (ascii_N_embedding c), <- (ascii_N_embedding d). now rewrite Hc.
Qed.

Lemma of_nat_inj (i j : nat) : of_nat i = of_nat j -> i = j.
Proof.
  unfold of_nat. intros H. apply lit_inj in H.
  apply Unsigned.to_uint_inj.
  assert (E : Some (Nat.to_uint i) = Some (Nat.to_uint j)).
  { rewrite <- (NilEmpty.usu (Nat.to_uint i)), <- (NilEmpty.usu (Nat.to_uint j)).
    now rewrite H. }
  now inversion E.
Qed.

(** The decimal rendering holds digits only: no hyphen. *)
Lemma uint_no_hyphen (d : Decimal.uint) : ~ In 45%N (lit (NilEmpty.string_of_uint d)).
Proof.
  induction d; cbn; intros H; try (destruct H as [H|H]; [discriminate|]); auto.
Qed.

Lemma of_nat_no_hyphen (i : nat) : ~ In 45%N (of_nat i).
Proof. apply uint_no_hyphen. Qed.

(** Two texts cut at the first occurrence of a character are cut alike. *)
Lemma first_occurrence (c : N) (x y a b : jsstring) :
  ~ In c x -> ~ In c y -> x ++ c :: a = y ++ c :: b -> x = y /\ a = b.
Proof.
  revert y. induction x as [|h x IH]; intros [|k y] Hx Hy H.
  - now inversion H.
  - cbn in H. inversion H. subst k. exfalso. apply Hy. now left.
  - cbn in H. inversion H. subst h. exfalso. apply Hx. now left.
  - cbn in H. inversion H. subst k.
    destruct (IH y) as [-> ->]; auto.
    + intros Hin. apply Hx. now right.
    + intros Hin. apply Hy. now right.
Qed.

Lemma chunk_id_inj (f1 f2 : jsstring) (i1 i2 : nat) :
  f1 ++ lit "-" ++ of_nat i1 = f2 ++ lit "-" ++ of_nat i2 -> f1 = f2 /\ i1 = i2.
Proof.
  intros H. apply (f_equal (@rev N)) in H.
  rewrite !rev_app_distr in H. cbn [lit rev app] in H.
  rewrite <- !app_assoc in H. cbn [app] in H.
  change (N_of_ascii "-") with 45%N in H.
  apply first_occurrence in H as [Hd Hf].
  - split.
    + rewrite <- (rev_involutive f1), <- (rev_involutive f2). now rewrite Hf.
    + apply of_nat_inj.
      rewrite <- (rev_involutive (of_nat i1)), <- (rev_involutive (of_nat i2)).
      now rewrite Hd.
  - rewrite <- in_rev. apply of_nat_no_hyphen.
  - rewrite <- in_rev. apply of_nat_no_hyphen.
Qed.

(** The identifiers of one file: its name, a hyphen and a position from
    [i] on, never twice the same. *)
Lemma upload_ids (generateEmbedding : jsstring -> option Embedding)
      (upsert : jsstring -> bool) (file : jsstring) (cs : list jsstring) :
  forall i,
    NoDup (upsert_ids (fst (upload generateEmbedding upsert file i cs)))
    /\ (forall id, In id (upsert_ids (fst (upload generateEmbedding upsert file i cs))) ->
          exists k, i <= k /\ id = file ++ lit "-" ++ of_nat k).
Proof.
  induction cs as [|c rest IH]; intros i.
  - cbn. split; [constructor|intros id []].
  - cbn [upload]. destruct (generateEmbedding c) as [v|].
    + destruct (upsert (file ++ lit "-" ++ of_nat i)).
      * specialize (IH (S i)).
        destruct (upload generateEmbedding upsert file (S i) rest) as [out done].
        cbn [fst] in *. destruct IH as [IH1 IH2].
        change (upsert_ids (EmbeddingsCreate (lit "text-embedding-3-small") c
                            :: Upsert (file ++ lit "-" ++ of_nat i) v c file :: out))
          with ((file ++ lit "-" ++ of_nat i) :: upsert_ids out).
        split.
        -- constructor; [|exact IH1]. intros Hin.
           destruct (IH2 _ Hin) as (k & Hk & E).
           apply chunk_id_inj in E as [_ E]. lia.
        -- intros id [<-|Hin]; [exists i; split; [lia|reflexivity]|].
           destruct (IH2 _ Hin) as (k & Hk & E). exists k. split; [lia|exact E].
      * cbn. split.
        -- constructor; [intros []|constructor].
        -- intros id [<-|[]]. exists i. split; [lia|reflexivity].
    + cbn. split; [constructor|intros id []].
Qed.

Lemma seed_ids (generateEmbedding : jsstring -> option Embedding)
      (upsert : jsstring -> bool) (files : list (jsstring * jsstring)) :
  forall id, In id (upsert_ids (fst (seed generateEmbedding upsert files))) ->
    exists file k, In file (map fst files) /\ id = file ++ lit "-" ++ of_nat k.
Proof.
  induction files as [|[file text] rest IH]; intros id Hin; [destruct Hin|].
  cbn [seed] in Hin.
  destruct (negb (ends_with (lit ".txt") file)).
  - destruct (IH id Hin) as (f & k & Hf & E). exists f, k. split; [now right|exact E].
  - pose proof (upload_ids generateEmbedding upsert file (chunks text) 0) as [_ Hu].
    destruct (upload generateEmbedding upsert file 0 (chunks text)) as [out done].
    cbn [fst] in Hu. destruct done.
    + destruct (seed generateEmbedding upsert rest) as [out' done'].
      cbn [fst] in *. unfold upsert_ids in Hin. rewrite flat_map_app in Hin.
      apply in_app_or in Hin as [Hin|Hin].
      * destruct (Hu id Hin) as (k & _ & E). exists file, k. split; [now left|exact E].
      * destruct (IH id Hin) as (f & k & Hf & E). exists f, k. split; [now right|exact E].
    + cbn [fst] in Hin. destruct (Hu id Hin) as (k & _ & E).
      exists file, k. split; [now left|exact E].
Qed.

(** X9: the identifiers are unique, as the script says of them: when the
    directory entries have different names, no two chunks are stored under
    the same identifier, within a file or across files. *)
Theorem upsert_ids_unique (generateEmbedding : jsstring -> option Embedding)
        (upsert : jsstring -> bool) (files : list (jsstring * jsstring)) :
  NoDup (map fst files) ->
  NoDup (upsert_ids (fst (seed generateEmbedding upsert files))).
Proof.
  induction files as [|[file text] rest IH]; intros Hnd; [constructor|].
  cbn [map fst] in Hnd. inversion Hnd as [|? ? Hnot Hnd']. subst.
  cbn [seed].
  destruct (negb (ends_with (lit ".txt") file)); [now apply IH|].
  pose proof (upload_ids generateEmbedding upsert file (chunks text) 0) as [Hu1 Hu2].
  destruct (upload generateEmbedding upsert file 0 (chunks text)) as [out done].
  cbn [fst] in *. destruct done; [|exact Hu1].
  pose proof (seed_ids generateEmbedding upsert rest) as Hs.
  specialize (IH Hnd').
  destruct (seed generateEmbedding upsert rest) as [out' done'].
  cbn [fst] in *. unfold upsert_ids. rewrite flat_map_app.
  apply NoDup_app; [exact Hu1|exact IH|].
  intros id Hin Hin'.
  destruct (Hu2 id Hin) as (k & _ & E).
  destruct (Hs id Hin') as (f & k' & Hf & E').
  rewrite E in E'. apply chunk_id_inj in E' as [-> _]. contradiction.
Qed.

Lemma upsert_ids_unique_witness :
  let generateEmbedding := fun _ : jsstring => Some ([] : Embedding) in
  let upsert := fun _ : jsstring => true in
  let long := repeat 97%N 51 in
  let files := [ (lit "a.txt", long ++ lf ++ lf ++ long); (lit "a.txt-1.txt", long) ] in
  NoDup (map fst files)
  /\ upsert_ids (fst (seed generateEmbedding upsert files))
     = [lit "a.txt-0"; lit "a.txt-1"; lit "a.txt-1.txt-0"]
  /\ NoDup (upsert_ids (fst (seed generateEmbedding upsert files))).
Proof.
  intros generateEmbedding upsert long files.
  assert (H : NoDup (map fst files)).
  { constructor; [intros [H|[]]; discriminate|]. constructor; [intros []|constructor]. }
  split; [exact H|]. split; [reflexivity|].
  exact (upsert_ids_unique generateEmbedding upsert files H).
Defined.

(** ** The ingestion script: what is sent and stored *)

Lemma upload_effects (generateEmbedding : jsstring -> option Embedding)
      (upsert : jsstring -> bool) (file : jsstring) (cs : list jsstring) :
  forall i e, In e (fst (upload generateEmbedding upsert file i cs)) ->
    match e with
    | EmbeddingsCreate model c => model = lit "text-embedding-3-small" /\ In c cs
    | Upsert id values text source =>
        source = file /\ generateEmbedding text = Some values
        /\ exists k, nth_error cs k = Some text /\ id = file ++ lit "-" ++ of_nat (i + k)
    end.
Proof.
  induction cs as [|c rest IH]; intros i e Hin; [destruct Hin|].
  cbn [upload] in Hin.
  assert (Hrest : In e (fst (upload generateEmbedding upsert file (S i) rest)) ->
                  match e with
                  | EmbeddingsCreate model c0 =>
                      model = lit "text-embedding-3-small" /\ In c0 (c :: rest)
                  | Upsert id values text source =>
                      source = file /\ generateEmbedding text = Some values
                      /\ exists k, nth_error (c :: rest) k = Some text
                                   /\ id = file ++ lit "-" ++ of_nat (i + k)
                  end).
  { intros H. specialize (IH (S i) e H). destruct e as [model c0|id values text source].
    - destruct IH as [-> IH]. split; [reflexivity|now right].
    - destruct IH as (-> & Hv & k & Hk & ->). split; [reflexivity|]. split; [exact Hv|].
      exists (S k). split; [exact Hk|]. now rewrite Nat.add_succ_r. }
  destruct (generateEmbedding c) as [v|] eqn:Ev.
  - assert (Hput : match Upsert (file ++ lit "-" ++ of_nat i) v c file with
                   | EmbeddingsCreate model c0 => True
                   | Upsert id values text source =>
                       source = file /\ generateEmbedding text = Some values
                       /\ exists k, nth_error (c :: rest) k = Some text
                                    /\ id = file ++ lit "-" ++ of_nat (i + k)
                   end).
    { split; [reflexivity|]. split; [exact Ev|]. exists 0.
      split; [reflexivity|]. now rewrite Nat.add_0_r. }
    destruct (upsert (file ++ lit "-" ++ of_nat i)).
    + destruct (upload generateEmbedding upsert file (S i) rest) as [out done].
      cbn [fst] in *. destruct Hin as [<-|[<-|Hin]].
      * split; [reflexivity|now left].
      * exact Hput.
      * now apply Hrest.
    + cbn [fst] in Hin. destruct Hin as [<-|[<-|[]]].
      * split; [reflexivity|now left].
      * exact Hput.
  - cbn [fst] in Hin. destruct Hin as [<-|[]]. split; [reflexivity|now left].
Qed.

(** X10: whatever is sent to the embedding service is a fragment longer
    than 50 characters of a file whose name ends in ".txt"; whatever is
    stored in the index is such a fragment together with the embedding the
    service returned for it, the name of its file as source, and as
    identifier that name, a hyphen and the position of the fragment among
    the chunks of the file. *)
Theorem seed_effects_from_text_files (generateEmbedding : jsstring -> option Embedding)
        (upsert : jsstring -> bool) (files : list (jsstring * jsstring)) (e : SeedEffect) :
  In e (fst (seed generateEmbedding upsert files)) ->
  match e with
  | EmbeddingsCreate model c =>
      model = lit "text-embedding-3-small"
      /\ 50 < length c
      /\ exists file text,
           In (file, text) files /\ ends_with (lit ".txt") file = true
           /\ In c (split (lf ++ lf) text)
  | Upsert id values text source =>
      generateEmbedding text = Some values
      /\ 50 < length text
      /\ ends_with (lit ".txt") source = true
      /\ exists content k,
           In (source, content) files
           /\ nth_error (chunks content) k = Some text
           /\ id = source ++ lit "-" ++ of_nat k
  end.
Proof.
  induction files as [|[file text] rest IH]; intros Hin; [destruct Hin|].
  cbn [seed] in Hin.
  assert (Hrest : In e (fst (seed generateEmbedding upsert rest)) ->
                  match e with
                  | EmbeddingsCreate model c =>
                      model = lit "text-embedding-3-small"
                      /\ 50 < length c
                      /\ exists file0 text0,
                           In (file0, text0) ((file, text) :: rest)
                           /\ ends_with (lit ".txt") file0 = true
                           /\ In c (split (lf ++ lf) text0)
                  | Upsert id values text0 source =>
                      generateEmbedding text0 = Some values
                      /\ 50 < length text0
                      /\ ends_with (lit ".txt") source = true
                      /\ exists content k,
                           In (source, content) ((file, text) :: rest)
                           /\ nth_error (chunks content) k = Some text0
                           /\ id = source ++ lit "-" ++ of_nat k
                  end).
  { intros H. specialize (IH H). destruct e as [model c|id values text0 source].
    - destruct IH as (Hm & Hl & f & t & Hf & He & Hc).
      split; [exact Hm|]. split; [exact Hl|]. exists f, t. split; [now right|now split].
    - destruct IH as (Hv & Hl & He & content & k & Hf & Hk & Hid).
      split; [exact Hv|]. split; [exact Hl|]. split; [exact He|].
      exists content, k. split; [now right|now split]. }
  destruct (ends_with (lit ".txt") file) eqn:Etxt; cbn [negb] in Hin; [|now apply Hrest].
  pose proof (upload_effects generateEmbedding upsert file (chunks text) 0 e) as Hu.
  assert (Hhere : In e (fst (upload generateEmbedding upsert file 0 (chunks text))) ->
                  match e with
                  | EmbeddingsCreate model c =>
                      model = lit "text-embedding-3-small"
                      /\ 50 < length c
                      /\ exists file0 text0,
                           In (file0, text0) ((file, text) :: rest)
                           /\ ends_with (lit ".txt") file0 = true
                           /\ In c (split (lf ++ lf) text0)
                  | Upsert id values text0 source =>
                      generateEmbedding text0 = Some values
                      /\ 50 < length text0
                      /\ ends_with (lit ".txt") source = true
                      /\ exists content k,
                           In (source, content) ((file, text) :: rest)
                           /\ nth_error (chunks content) k = Some text0
                           /\ id = source ++ lit "-" ++ of_nat k
                  end).
  { intros H. specialize (Hu H). destruct e as [model c|id values text0 source].
    - destruct Hu as [Hm Hc]. unfold chunks in Hc. apply filter_In in Hc as [Hc Hl].
      apply Nat.ltb_lt in Hl. split; [exact Hm|]. split; [exact Hl|].
      exists file, text. split; [now left|now split].
    - destruct Hu as (-> & Hv & k & Hk & Hid). cbn [Nat.add] in Hid.
      assert (Hl : 50 < length text0).
      { apply nth_error_In in Hk. unfold chunks in Hk. apply filter_In in Hk as [_ Hk].
        now apply Nat.ltb_lt. }
      split; [exact Hv|]. split; [exact Hl|]. split; [exact Etxt|].
      exists text, k. split; [now left|now split]. }
  destruct (upload generateEmbedding upsert file 0 (chunks text)) as [out done].
  cbn [fst] in *. destruct done; [|now apply Hhere].
  destruct (seed generateEmbedding upsert rest) as [out' done'].
  cbn [fst] in *. apply in_app_or in Hin as [Hin|Hin]; [now apply Hhere|now apply Hrest].
Qed.

Lemma seed_effects_from_text_files_witness :
  let generateEmbedding := fun c : jsstring => Some [inject_Z (Z.of_nat (length c))] in
  let upsert := fun _ : jsstring => true in
  let long := repeat 97%N 60 in
  let files := [ (lit "notes.md", long); (lit "dsm.txt", lit "Title" ++ lf ++ lf ++ long) ] in
  let e := Upsert (lit "dsm.txt-0") [inject_Z 60] long (lit "dsm.txt") in
  In e (fst (seed generateEmbedding upsert files))
  /\ generateEmbedding long = Some [inject_Z 60]
  /\ ends_with (lit ".txt") (lit "dsm.txt") = true.
Proof.
  intros generateEmbedding upsert long files e.
  assert (H : In e (fst (seed generateEmbedding upsert files))).
  { right. left. reflexivity. }
  split; [exact H|].
  destruct (seed_effects_from_text_files generateEmbedding upsert files e H)
    as (Hv & _ & Ht & _).
  split; [exact Hv|exact Ht].
Defined.

(** ** The ingestion script: completion and failure *)

Lemma upload_outcome (generateEmbedding : jsstring -> option Embedding)
      (upsert : jsstring -> bool) (file : jsstring) (cs : list jsstring) :
  forall i,
    let run := upload generateEmbedding upsert file i cs in
    (snd run = true ->
     Forall (fun e => rejected generateEmbedding upsert e = false) (fst run))
    /\ (snd run = false ->
        exists out last,
          fst run = out ++ [last]
          /\ rejected generateEmbedding upsert last = true
          /\ Forall (fun e => rejected generateEmbedding upsert e = false) out).
Proof.
  induction cs as [|c rest IH]; intros i.
  - cbn. split; [constructor|discriminate].
  - cbn zeta. cbn [upload].
    destruct (generateEmbedding c) as [v|] eqn:Ev.
    + destruct (upsert (file ++ lit "-" ++ of_nat i)) eqn:Eu.
      * specialize (IH (S i)). cbn zeta in IH.
        destruct (upload generateEmbedding upsert file (S i) rest) as [out done].
        cbn [fst snd] in *. destruct IH as [IH1 IH2].
        assert (Hc : rejected generateEmbedding upsert
                       (EmbeddingsCreate (lit "text-embedding-3-small") c) = false).
        { cbn [rejected]. now rewrite Ev. }
        assert (Hp : rejected generateEmbedding upsert
                       (Upsert (file ++ lit "-" ++ of_nat i) v c file) = false).
        { cbn [rejected]. now rewrite Eu. }
        split.
        -- intros Hd. constructor; [exact Hc|]. constructor; [exact Hp|now apply IH1].
        -- intros Hd. destruct (IH2 Hd) as (pre & last & -> & Hl & Hpre).
           exists (EmbeddingsCreate (lit "text-embedding-3-small") c
                   :: Upsert (file ++ lit "-" ++ of_nat i) v c file :: pre), last.
           split; [reflexivity|]. split; [exact Hl|].
           constructor; [exact Hc|]. constructor; [exact Hp|exact Hpre].
      * cbn [fst snd]. split; [discriminate|]. intros _.
        exists [EmbeddingsCreate (lit "text-embedding-3-small") c],
               (Upsert (file ++ lit "-" ++ of_nat i) v c file).
        split; [reflexivity|]. split; [cbn [rejected]; now rewrite Eu|].
        constructor; [cbn [rejected]; now rewrite Ev|constructor].
    + cbn [fst snd]. split; [discriminate|]. intros _.
      exists [], (EmbeddingsCreate (lit "text-embedding-3-small") c).
      split; [reflexivity|]. split; [cbn [rejected]; now rewrite Ev|constructor].
Qed.

(** X11: the script stops at the first call that is rejected: when it does
    not run to its end, the rejected call is the last thing it did and
    every call before it was accepted; when it runs to its end, every call
    was accepted. *)
Theorem seed_stops_at_first_rejection (generateEmbedding : jsstring -> option Embedding)
        (upsert : jsstring -> bool) (files : list (jsstring * jsstring)) :
  (snd (seed generateEmbedding upsert files) = true ->
   Forall (fun e => rejected generateEmbedding upsert e = false)
          (fst (seed generateEmbedding upsert files)))
  /\ (snd (seed generateEmbedding upsert files) = false ->
      exists out last,
        fst (seed generateEmbedding upsert files) = out ++ [last]
        /\ rejected generateEmbedding upsert last = true
        /\ Forall (fun e => rejected generateEmbedding upsert e = false) out).
Proof.
  induction files as [|[file text] rest IH].
  - cbn. split; [constructor|discriminate].
  - cbn [seed]. destruct (negb (ends_with (lit ".txt") file)); [exact IH|].
    pose proof (upload_outcome generateEmbedding upsert file (chunks text) 0) as Hu.
    cbn zeta in Hu.
    destruct (upload generateEmbedding upsert file 0 (chunks text)) as [out done].
    cbn [fst snd] in Hu. destruct Hu as [Hu1 Hu2]. destruct done.
    + destruct (seed generateEmbedding upsert rest) as [out' done'].
      cbn [fst snd] in *. destruct IH as [IH1 IH2]. split.
      * intros Hd. apply Forall_app. split; [now apply Hu1|now apply IH1].
      * intros Hd. destruct (IH2 Hd) as (pre & last & -> & Hl & Hpre).
        exists (out ++ pre), last. split; [now rewrite app_assoc|].
        split; [exact Hl|]. apply Forall_app. split; [now apply Hu1|exact Hpre].
    + cbn [fst snd]. split; [discriminate|]. intros _. now apply Hu2.
Qed.

Lemma seed_stops_at_first_rejection_witness :
  let long := repeat 97%N 51 in
  let longer := repeat 98%N 52 in
  let generateEmbedding := fun c : jsstring =>
                             if length c =? 52 then None else Some ([] : Embedding) in
  let upsert := fun _ : jsstring => true in
  let files := [ (lit "a.txt", long ++ lf ++ lf ++ longer ++ lf ++ lf ++ long) ] in
  snd (seed generateEmbedding upsert files) = false
  /\ embedded (fst (seed generateEmbedding upsert files)) = [long; longer]
  /\ exists out last,
       fst (seed generateEmbedding upsert files) = out ++ [last]
       /\ rejected generateEmbedding upsert last = true
       /\ Forall (fun e => rejected generateEmbedding upsert e = false) out.
Proof.
  intros long longer generateEmbedding upsert files.
  assert (H : snd (seed generateEmbedding upsert files) = false) by reflexivity.
  split; [exact H|]. split; [reflexivity|].
  exact (proj2 (seed_stops_at_first_rejection generateEmbedding upsert files) H).
Defined.

(** X12: when the embedding service and the index accept every call, the
    script runs to its end and embeds the chunks of every file whose name
    ends in ".txt", file after file in the order of the directory and chunk
    after chunk in the order of the text; files with other names give
    nothing. *)
Theorem seed_embeds_text_files (generateEmbedding : jsstring -> option Embedding)
        (upsert : jsstring -> bool) (files : list (jsstring * jsstring)) :
  (forall c, generateEmbedding c <> None) -> (forall id, upsert id = true) ->
  snd (seed generateEmbedding upsert files) = true
  /\ embedded (fst (seed generateEmbedding upsert files))
     = flat_map (fun ft => if ends_with (lit ".txt") (fst ft) then chunks (snd ft) else [])
                files.
Proof.
  intros He Hu. induction files as [|[file text] rest IH]; [now split|].
  cbn [seed flat_map fst snd].
  destruct (ends_with (lit ".txt") file); cbn [negb]; [|exact IH].
  destruct (upload_all generateEmbedding upsert file (chunks text) 0
              (fun c _ => He c) Hu) as [H1 H2].
  destruct (upload generateEmbedding upsert file 0 (chunks text)) as [out done].
  cbn [fst snd] in *. subst done.
  destruct (seed generateEmbedding upsert rest) as [out' done'].
  cbn [fst snd] in *. destruct IH as [-> IH]. split; [reflexivity|].
  unfold embedded in *. rewrite flat_map_app. now rewrite H1, IH.
Qed.

Lemma seed_embeds_text_files_witness :
  let generateEmbedding := fun _ : jsstring => Some ([] : Embedding) in
  let upsert := fun _ : jsstring => true in
  let long := repeat 97%N 51 in
  let longer := repeat 98%N 52 in
  let files := [ (lit "readme.md", longer); (lit "a.txt", long ++ lf ++ lf ++ lit "short");
                 (lit "b.txt", longer) ] in
  (forall c, generateEmbedding c <> None)
  /\ (forall id, upsert id = true)
  /\ embedded (fst (seed generateEmbedding upsert files)) = [long; longer].
Proof.
  intros generateEmbedding upsert long longer files.
  assert (He : forall c, generateEmbedding c <> None) by discriminate.
  assert (Hu : forall id, upsert id = true) by reflexivity.
  split; [exact He|]. split; [exact Hu|].
  exact (proj2 (seed_embeds_text_files generateEmbedding upsert files He Hu)).
Defined.

(** ** The ingestion script: paragraphs *)

Lemma starts_with_app_l (p s t : jsstring) :
  starts_with p s = true -> starts_with p (s ++ t) = true.
Proof.
  intros H. destruct (starts_with_inv _ _ H) as [b ->].
  rewrite <- app_assoc. apply starts_with_app.
Qed.

Lemma includes_false_intro (sep x : jsstring) :
  sep <> [] ->
  (forall a b, x = a ++ b -> b <> [] -> starts_with sep b = false) ->
  includes sep x = false.
Proof.
  intros Hsep. induction x as [|h t IH]; intros H.
  - destruct sep; [congruence|reflexivity].
  - cbn [includes]. rewrite (H [] (h :: t)) by (reflexivity || discriminate).
    apply IH. intros a b E Hb. apply (H (h :: a) b); [now rewrite E|exact Hb].
Qed.

Lemma clean_fragment (sep cur s : jsstring) :
  sep <> [] -> clean sep cur s -> includes sep (rev cur) = false.
Proof.
  intros Hsep Hc. apply includes_false_intro; [exact Hsep|].
  intros a b E Hb. specialize (Hc a b E Hb).
  destruct (starts_with sep b) eqn:Es; [|reflexivity].
  apply (starts_with_app_l _ _ s) in Es. congruence.
Qed.

Lemma clean_step (sep cur : jsstring) (c : N) (r : jsstring) :
  clean sep cur (c :: r) -> starts_with sep (c :: r) = false ->
  clean sep (c :: cur) r.
Proof.
  intros Hc Hs a b E Hb. cbn [rev] in E.
  destruct (exists_last Hb) as (b' & x & ->).
  rewrite app_assoc in E. apply app_inj_tail in E as [E ->].
  rewrite <- app_assoc. cbn [app].
  destruct b' as [|h b'].
  - exact Hs.
  - apply (Hc a (h :: b')); [exact E|discriminate].
Qed.

Lemma split_from_clean (sep : jsstring) (n : nat) :
  sep <> [] ->
  forall s cur, length s <= n -> clean sep cur s ->
    forall c, In c (split_from sep 0 cur s) -> includes sep c = false.
Proof.
  intros Hsep. induction n as [|n IH]; intros s cur Hn Hc c Hin.
  - destruct s; [|simpl in Hn; lia]. cbn in Hin. destruct Hin as [<-|[]].
    now apply (clean_fragment sep cur []).
  - destruct s as [|x r].
    + cbn in Hin. destruct Hin as [<-|[]]. now apply (clean_fragment sep cur []).
    + cbn [split_from] in Hin.
      destruct (starts_with sep (x :: r)) eqn:E.
      * destruct Hin as [<-|Hin]; [now apply (clean_fragment sep cur (x :: r))|].
        destruct (starts_with_inv _ _ E) as [s' Hs'].
        destruct sep as [|y sep']; [congruence|].
        cbn [app] in Hs'. injection Hs' as -> ->.
        replace (length (y :: sep') - 1) with (length sep') in Hin by (simpl; lia).
        rewrite split_from_skip in Hin.
        apply (IH s' []); [|intros a b Eab Hb|exact Hin].
        -- simpl in Hn. rewrite length_app in Hn. lia.
        -- cbn [rev] in Eab. symmetry in Eab. apply app_eq_nil in Eab as [_ ->].
           congruence.
      * apply (IH r (x :: cur)); [simpl in Hn; lia| |exact Hin].
        now apply clean_step.
Qed.

(** X13: the fragments of a text are its paragraphs: put together again,
    with a blank line between them, they are the text, and no fragment
    holds a blank line; so every chunk is a single paragraph. *)
Theorem fragments_are_paragraphs (text : jsstring) :
  join (lf ++ lf) (split (lf ++ lf) text) = text
  /\ (forall c, In c (split (lf ++ lf) text) -> includes (lf ++ lf) c = false)
  /\ (forall c, In c (chunks text) -> includes (lf ++ lf) c = false).
Proof.
  assert (Hsep : lf ++ lf <> []) by discriminate.
  assert (Hall : forall c, In c (split (lf ++ lf) text) -> includes (lf ++ lf) c = false).
  { intros c Hin. apply (split_from_clean (lf ++ lf) (length text) Hsep text []);
      [lia| |exact Hin].
    intros a b E Hb. cbn [rev] in E. symmetry in E. apply app_eq_nil in E as [_ ->].
    congruence. }
  split; [now apply join_split|]. split; [exact Hall|].
  intros c Hin. unfold chunks in Hin. apply filter_In in Hin as [Hin _]. now apply Hall.
Qed.

(** ** The CORS policy *)

Lemma split_until (c : N) (p cur rest : jsstring) :
  ~ In c p ->
  split_from [c] 0 cur (p ++ c :: rest) = (rev cur ++ p) :: split_from [c] 0 [] rest.
Proof.
  revert cur. induction p as [|h p IH]; intros cur Hp.
  - cbn [app split_from starts_with]. rewrite N.eqb_refl. cbn. now rewrite app_nil_r.
  - cbn [app split_from starts_with].
    assert (Hh : N.eqb c h = false).
    { apply N.eqb_neq. intros ->. apply Hp. now left. }
    rewrite Hh. cbn [andb]. rewrite IH by (intros H; apply Hp; now right).
    cbn [rev]. now rewrite <- app_assoc.
Qed.

Lemma split_last (c : N) (p cur : jsstring) :
  ~ In c p -> split_from [c] 0 cur p = [rev cur ++ p].
Proof.
  revert cur. induction p as [|h p IH]; intros cur Hp.
  - cbn. now rewrite app_nil_r.
  - cbn [split_from starts_with].
    assert (Hh : N.eqb c h = false).
    { apply N.eqb_neq. intros ->. apply Hp. now left. }
    rewrite Hh. cbn [andb]. rewrite IH by (intros H; apply Hp; now right).
    cbn [rev]. now rewrite <- app_assoc.
Qed.

(** Splitting at a character undoes joining with it, when no part holds
    the character. *)
Lemma split_join (c : N) (parts : list jsstring) :
  parts <> [] -> Forall (fun p => ~ In c p) parts ->
  split [c] (join [c] parts) = parts.
Proof.
  unfold split. induction parts as [|p rest IH]; intros Hne Hall; [congruence|].
  inversion Hall as [|? ? Hp Hrest]. subst.
  destruct rest as [|q rest].
  - cbn [join]. now rewrite split_last.
  - rewrite join_cons by discriminate. cbn [app].
    rewrite split_until by exact Hp. cbn [rev app].
    f_equal. apply IH; [discriminate|exact Hrest].
Qed.

Lemma origin_callback_passes (allowed : list jsstring) (origin : option jsstring) :
  (passes allowed origin -> origin_callback allowed origin = CorsAllowed)
  /\ (~ passes allowed origin ->
      origin_callback allowed origin = CorsError (lit "Not allowed by CORS")).
Proof.
  destruct origin as [[|c o]|]; cbn [passes origin_callback].
  - split; [reflexivity|intros H; exfalso; apply H; now left].
  - destruct (mem (c :: o) allowed) eqn:E.
    + apply mem_true in E. split; [reflexivity|intros H; exfalso; apply H; now right].
    + split; [|reflexivity]. intros [H|H]; [discriminate|].
      apply mem_true in H. congruence.
  - split; [reflexivity|intros H; exfalso; now apply H].
Qed.

(** X14: when ALLOWED_ORIGINS lists origins separated by commas, the
    origins that pass are exactly the listed ones, character for
    character, besides requests without an origin; any other origin gets
    the error "Not allowed by CORS". *)
Theorem cors_allows_listed_origins (origins : list jsstring) (origin : option jsstring) :
  Forall (fun o => ~ In 44%N o) origins ->
  join (lit ",") origins <> [] ->
  (passes origins origin ->
   origin_callback (allowedOrigins (Some (join (lit ",") origins))) origin = CorsAllowed)
  /\ (~ passes origins origin ->
      origin_callback (allowedOrigins (Some (join (lit ",") origins))) origin
      = CorsError (lit "Not allowed by CORS")).
Proof.
  intros Hall Hne.
  assert (E : allowedOrigins (Some (join (lit ",") origins)) = origins).
  { unfold allowedOrigins.
    destruct (join (lit ",") origins) as [|c s] eqn:Ej; [congruence|].
    rewrite <- Ej. apply (split_join 44%N); [|exact Hall].
    intros ->. discriminate. }
  rewrite E. apply origin_callback_passes.
Qed.

Lemma cors_allows_listed_origins_witness :
  let origins := [lit "http://localhost:3000"; lit "https://psycanvas.app"] in
  Forall (fun o => ~ In 44%N o) origins
  /\ join (lit ",") origins = lit "http://localhost:3000,https://psycanvas.app"
  /\ passes origins (Some (lit "https://psycanvas.app"))
  /\ origin_callback (allowedOrigins (Some (lit "http://localhost:3000,https://psycanvas.app")))
                     (Some (lit "https://psycanvas.app")) = CorsAllowed.
Proof.
  intros origins.
  assert (Hall : Forall (fun o => ~ In 44%N o) origins).
  { repeat constructor; intros H; cbn in H;
      repeat (destruct H as [H|H]; [discriminate|]); exact H. }
  assert (Hne : join (lit ",") origins <> []) by discriminate.
  assert (Hp : passes origins (Some (lit "https://psycanvas.app"))).
  { right. right. left. reflexivity. }
  split; [exact Hall|]. split; [reflexivity|]. split; [exact Hp|].
  exact (proj1 (cors_allows_listed_origins origins _ Hall Hne) Hp).
Defined.

(** X15: when ALLOWED_ORIGINS is not set, or is empty, the only origin
    that passes is http://localhost:3000, besides requests without an
    origin. *)
Theorem cors_default_origin (ALLOWED_ORIGINS : option jsstring) (origin : option jsstring) :
  ALLOWED_ORIGINS = None \/ ALLOWED_ORIGINS = Some [] ->
  (passes [lit "http://localhost:3000"] origin ->
   origin_callback (allowedOrigins ALLOWED_ORIGINS) origin = CorsAllowed)
  /\ (~ passes [lit "http://localhost:3000"] origin ->
      origin_callback (allowedOrigins ALLOWED_ORIGINS) origin
      = CorsError (lit "Not allowed by CORS")).
Proof.
  intros [-> | ->]; apply origin_callback_passes.
Qed.

Lemma cors_default_origin_witness :
  ~ passes [lit "http://localhost:3000"] (Some (lit "http://localhost:3000/"))
  /\ origin_callback (allowedOrigins (Some [])) (Some (lit "http://localhost:3000/"))
     = CorsError (lit "Not allowed by CORS").
Proof.
  assert (Hn : ~ passes [lit "http://localhost:3000"] (Some (lit "http://localhost:3000/"))).
  { intros [H|[H|[]]]; discriminate. }
  split; [exact Hn|].
  exact (proj2 (cors_default_origin (Some []) _ (or_intror eq_refl)) Hn).
Defined.

(** ** The earlier revision of the handler *)

Lemma elements_strings (to_string : json -> option jsstring) (ms : list jsstring) :
  elements to_string (map JStr ms) = Some ms.
Proof.
  induction ms as [|m ms IH]; [reflexivity|]. cbn [map elements element_text text_of].
  now rewrite IH.
Qed.

Lemma or_default_given (key : jsstring) (fields : list (jsstring * json))
      (default x : jsstring) :
  given_or_default key fields default x ->
  or_default (lookup key fields) (JStr default) = JStr x.
Proof. intros [H|[H ->]]; now rewrite H. Qed.

Lemma legacy_receive_typed (to_string materials_text_other : json -> option jsstring)
      (fields : list (jsstring * json)) (r : ChatRequest) :
  stands_for fields r ->
  legacy_receive to_string materials_text_other (Some (BObject fields))
  = (Awaiting, [GenerateText model_name (systemPrompt r) (question r)]).
Proof.
  intros (Hq & Hne & Hcs & Hcm & Hrc & Hms).
  unfold legacy_receive. cbn [legacy_field]. rewrite Hq.
  rewrite (or_default_given _ _ _ _ Hcs), (or_default_given _ _ _ _ Hcm),
          (or_default_given _ _ _ _ Hrc).
  assert (Em : or_default (lookup (lit "materials") fields) (JArr [])
               = JArr (map JStr (materials r))).
  { destruct Hms as [H|[H E]]; rewrite H; [reflexivity|now rewrite E]. }
  rewrite Em. destruct (question r) as [|c q] eqn:Eq; [congruence|].
  unfold legacy_prompt. cbn [text_of legacy_recency_clause legacy_materials_clause].
  rewrite elements_strings. cbn [option_map]. reflexivity.
Qed.

(** X16: the earlier revision sets no limits: for a body whose question is
    any string that is not empty, whose options, where given, are any
    strings and whose materials, where given, are any array of strings, it
    calls the remote service with the system prompt built from these
    values and the defaults, and with the question; the answer or the
    failure of that call is the only response. *)
Theorem legacy_calls_remote (to_string materials_text_other : json -> option jsstring)
        (fields : list (jsstring * json)) (r : ChatRequest) (outcome : option Settled) :
  stands_for fields r ->
  legacy_handle to_string materials_text_other (Some (BObject fields)) outcome
  = GenerateText model_name (systemPrompt r) (question r)
    :: match outcome with
       | Some s => [Send (legacy_settle s)]
       | None => []
       end.
Proof.
  intros H. unfold legacy_handle.
  rewrite (legacy_receive_typed to_string materials_text_other fields r H).
  now destruct outcome.
Qed.

Lemma legacy_calls_remote_witness :
  let fields := [ (lit "question", JStr (lit "CBT?")); (lit "recency", JStr (lit "50")) ] in
  let r := mkChatRequest (lit "CBT?") (lit "apa") (lit "balanced") (lit "50") [] in
  stands_for fields r
  /\ legacy_handle (fun _ => None) (fun _ => None) (Some (BObject fields))
                   (Some (Fulfilled (lit "Cognitive behavioural therapy.")))
     = [ GenerateText model_name (systemPrompt r) (lit "CBT?");
         Send (mkResponse 200 (JObj [ (lit "answer",
                                       JStr (lit "Cognitive behavioural therapy.")) ])) ]
  /\ (exists details, Joi.validate chatSchema (BObject fields) = Joi.Failed details).
Proof.
  intros fields r.
  assert (H : stands_for fields r).
  { split; [reflexivity|]. split; [discriminate|].
    split; [right; split; reflexivity|]. split; [right; split; reflexivity|].
    split; [left; reflexivity|]. right. split; reflexivity. }
  split; [exact H|]. split.
  - exact (legacy_calls_remote (fun _ => None) (fun _ => None) fields r
             (Some (Fulfilled (lit "Cognitive behavioural therapy."))) H).
  - eexists. reflexivity.
Defined.

(** X17: the two revisions agree on the requests that the schema accepts:
    for such a body the earlier revision makes the same remote call, with
    the same system prompt and question, as the present one, which adds the
    timer. *)
Theorem revisions_agree_on_valid (to_string materials_text_other : json -> option jsstring)
        (fields : list (jsstring * json)) (value : list (jsstring * Joi.Value)) :
  Joi.validate chatSchema (BObject fields) = Joi.Passed value ->
  exists system prompt,
    receive (BObject fields)
    = (Racing, [SetTimeout 30000; GenerateText model_name system prompt])
    /\ legacy_receive to_string materials_text_other (Some (BObject fields))
       = (Awaiting, [GenerateText model_name system prompt]).
Proof.
  intros H. destruct (receive_valid _ _ H) as (r & Hr & E).
  exists (systemPrompt r), (question r). split; [exact E|].
  apply legacy_receive_typed.
  destruct (validated_values fields value r H Hr) as (Hq & Hcs & Hcm & Hrc & Hms).
  split; [exact Hq|]. split; [|now repeat split].
  assert (Ha : acceptable fields = true).
  { apply all_errors_acceptable. rewrite validate_object in H.
    now apply finalize_passed_inv in H as [H _]. }
  unfold acceptable in Ha. rewrite !andb_true_iff in Ha.
  destruct Ha as (((((A1 & _) & _) & _) & _) & _).
  rewrite Hq in A1. cbn [question_ok] in A1. intros En. rewrite En in A1. discriminate.
Qed.

Lemma revisions_agree_on_valid_witness :
  let fields := [ (lit "question", JStr (lit "What is cognitive behavioural therapy?"));
                  (lit "materials", JArr [JStr (lit "Kring 2021")]) ] in
  (exists value, Joi.validate chatSchema (BObject fields) = Joi.Passed value)
  /\ remote_calls (snd (legacy_receive (fun _ => None) (fun _ => None)
                                       (Some (BObject fields))))
     = remote_calls (snd (receive (BObject fields))).
Proof.
  intros fields.
  assert (H : Joi.validate chatSchema (BObject fields)
              = Joi.Passed
                  [ (lit "question", Joi.VString (lit "What is cognitive behavioural therapy?"));
                    (lit "citationStyle", Joi.VString (lit "apa"));
                    (lit "citationMode", Joi.VString (lit "balanced"));
                    (lit "recency", Joi.VString (lit "10"));
                    (lit "materials", Joi.VArray [lit "Kring 2021"]) ]) by reflexivity.
  split; [eexists; exact H|].
  destruct (revisions_agree_on_valid (fun _ => None) (fun _ => None) fields _ H)
    as (system & prompt & E1 & E2).
  rewrite E1, E2. reflexivity.
Defined.

(** X18: the earlier revision answers 400 with error 'Missing or invalid
    "question" field.', and calls nothing, exactly when the body has no
    question that is a string and not empty; this includes a request
    without a body and a body that is an array. *)
Theorem legacy_question_required (to_string materials_text_other : json -> option jsstring)
        (req_body : option ReqBody) (outcome : option Settled) :
  (forall c q, legacy_field req_body (lit "question") <> Some (JStr (c :: q)))
  <-> legacy_handle to_string materials_text_other req_body outcome
      = [Send missing_question].
Proof.
  unfold legacy_handle, legacy_receive. split.
  - intros H.
    destruct (legacy_field req_body (lit "question")) as [[| b | x | [|c q] | l | f]|];
      try reflexivity.
    exfalso. now apply (H c q).
  - intros H c q E. rewrite E in H.
    destruct (legacy_prompt _ _ _ _ _ _); destruct outcome; discriminate.
Qed.

(** X19: the responses of the earlier revision: every response is the 400
    for a missing question, the generated answer with status 200, or one
    fixed 500 response, whatever failed; at most one response is sent and
    at most one remote call is made. *)
Theorem legacy_responses (to_string materials_text_other : json -> option jsstring)
        (req_body : option ReqBody) (outcome : option Settled) :
  let out := legacy_handle to_string materials_text_other req_body outcome in
  length (responses out) <= 1
  /\ length (remote_calls out) <= 1
  /\ (forall resp, In resp (responses out) ->
        resp = missing_question
        \/ resp = something_went_wrong
        \/ exists text, outcome = Some (Fulfilled text)
                        /\ resp = mkResponse 200 (JObj [ (lit "answer", JStr text) ])).
Proof.
  cbn zeta. unfold legacy_handle, legacy_receive.
  destruct (legacy_field req_body (lit "question")) as [[| b | x | [|c q] | l | f]|];
    try (cbn; split; [lia|split; [lia|intros resp [<-|[]]; now left]]).
  destruct (legacy_prompt _ _ _ _ _ _) as [system|].
  - destruct outcome as [[text|err]|]; cbn.
    + split; [lia|]. split; [lia|]. intros resp [<-|[]]. right. right. now exists text.
    + split; [lia|]. split; [lia|]. intros resp [<-|[]]. right. now left.
    + split; [lia|]. split; [lia|]. intros resp [].
  - cbn. split; [lia|]. split; [lia|]. intros resp [<-|[]]. right. now left.
Qed.

(** ** Validation of a validated request *)

Lemma material_bounds_forallb (ms : list jsstring) :
  Forall (fun m => 1 <= length m <= 500) ms ->
  forallb material_ok (map JStr ms) = true.
Proof.
  induction 1 as [|m ms [H1 H2] _ IH]; [reflexivity|].
  cbn [map forallb material_ok]. rewrite IH.
  apply Nat.leb_le in H1. apply Nat.leb_le in H2. now rewrite H1, H2.
Qed.

Lemma request_body_acceptable (r : ChatRequest) :
  10 <= length (question r) <= 5000 ->
  In (citationStyle r) [lit "apa"; lit "mla"; lit "chicago"] ->
  In (citationMode r) [lit "strict"; lit "balanced"; lit "flexible"] ->
  In (recency r) [lit "5"; lit "10"; lit "15"; lit "all"] ->
  length (materials r) <= 20 ->
  Forall (fun m => 1 <= length m <= 500) (materials r) ->
  acceptable (request_body r) = true.
Proof.
  intros [Hq1 Hq2] Hcs Hcm Hrc Hl Hm.
  unfold acceptable.
  change (lookup (lit "question") (request_body r)) with (Some (JStr (question r))).
  change (lookup (lit "citationStyle") (request_body r))
    with (Some (JStr (citationStyle r))).
  change (lookup (lit "citationMode") (request_body r))
    with (Some (JStr (citationMode r))).
  change (lookup (lit "recency") (request_body r)) with (Some (JStr (recency r))).
  change (lookup (lit "materials") (request_body r))
    with (Some (JArr (map JStr (materials r)))).
  change (forallb (fun k => mem k declared) (map fst (request_body r))) with true.
  cbn [question_ok option_ok one_of materials_ok].
  apply Nat.leb_le in Hq1. apply Nat.leb_le in Hq2. rewrite Hq1, Hq2.
  apply mem_true in Hcs. apply mem_true in Hcm. apply mem_true in Hrc.
  rewrite Hcs, Hcm, Hrc.
  rewrite (material_bounds_forallb _ Hm), length_map.
  apply Nat.leb_le in Hl. now rewrite Hl.
Qed.

(** X20: validation is stable: the request that comes out of a valid body,
    sent again with all its five properties given explicitly, passes
    validation and comes out the same. *)
Theorem validated_request_stable (fields : list (jsstring * json))
        (value : list (jsstring * Joi.Value)) (r : ChatRequest) :
  Joi.validate chatSchema (BObject fields) = Joi.Passed value ->
  destructure value = Some r ->
  exists value',
    Joi.validate chatSchema (BObject (request_body r)) = Joi.Passed value'
    /\ destructure value' = Some r.
Proof.
  intros H Hr.
  destruct (validated_values fields value r H Hr) as (Hq & Hcs & Hcm & Hrc & Hms).
  assert (Ha : acceptable fields = true).
  { apply all_errors_acceptable. rewrite validate_object in H.
    now apply finalize_passed_inv in H as [H _]. }
  unfold acceptable in Ha. rewrite !andb_true_iff in Ha.
  destruct Ha as (((((A1 & A2) & A3) & A4) & A5) & _).
  assert (Hb : acceptable (request_body r) = true).
  { apply request_body_acceptable.
    - rewrite Hq in A1. cbn [question_ok] in A1.
      apply andb_true_iff in A1 as [B1 B2].
      apply Nat.leb_le in B1. apply Nat.leb_le in B2. now split.
    - apply (given_allowed _ _ _ _ _ Hcs A2). left. reflexivity.
    - apply (given_allowed _ _ _ _ _ Hcm A3). right. left. reflexivity.
    - apply (given_allowed _ _ _ _ _ Hrc A4). right. left. reflexivity.
    - destruct Hms as [Hms|[_ ->]]; [|simpl; lia].
      rewrite Hms in A5. cbn [materials_ok] in A5.
      apply andb_true_iff in A5 as [_ A5]. apply Nat.leb_le in A5.
      now rewrite length_map in A5.
    - destruct Hms as [Hms|[_ ->]]; [|constructor].
      rewrite Hms in A5. cbn [materials_ok] in A5.
      apply andb_true_iff in A5 as [A5 _]. now apply forallb_material_bounds. }
  apply all_errors_acceptable in Hb.
  assert (Hv : Joi.validate chatSchema (BObject (request_body r))
               = Joi.Passed (fst (Joi.validate_keys chatSchema (request_body r)))).
  { rewrite validate_object, Hb. reflexivity. }
  eexists. split; [exact Hv|].
  destruct (validated_request _ _ Hv) as [r' Hr']. rewrite Hr'. f_equal.
  destruct (validated_values _ _ r' Hv Hr') as (Hq' & Hcs' & Hcm' & Hrc' & Hms').
  change (lookup (lit "question") (request_body r)) with (Some (JStr (question r))) in Hq'.
  unfold given_or_default in Hcs', Hcm', Hrc'.
  change (lookup (lit "citationStyle") (request_body r))
    with (Some (JStr (citationStyle r))) in Hcs'.
  change (lookup (lit "citationMode") (request_body r))
    with (Some (JStr (citationMode r))) in Hcm'.
  change (lookup (lit "recency") (request_body r)) with (Some (JStr (recency r))) in Hrc'.
  change (lookup (lit "materials") (request_body r))
    with (Some (JArr (map JStr (materials r)))) in Hms'.
  destruct r as [q cs cm rc ms], r' as [q' cs' cm' rc' ms'].
  cbn [question citationStyle citationMode recency materials] in *.
  destruct Hcs' as [Hcs'|[Hcs' _]]; [|discriminate].
  destruct Hcm' as [Hcm'|[Hcm' _]]; [|discriminate].
  destruct Hrc' as [Hrc'|[Hrc' _]]; [|discriminate].
  destruct Hms' as [Hms'|[Hms' _]]; [|discriminate].
  inversion Hq'. inversion Hcs'. inversion Hcm'. inversion Hrc'. inversion Hms' as [Em].
  f_equal. clear - Em.
  revert ms' Em. induction ms as [|m ms IH]; intros [|m' ms'] Em; try discriminate;
    [reflexivity|]. cbn [map] in Em. inversion Em. f_equal. now apply IH.
Qed.

Lemma validated_request_stable_witness :
  let fields := [ (lit "question", JStr (lit "What is cognitive behavioural therapy?")) ] in
  let r := mkChatRequest (lit "What is cognitive behavioural therapy?")
                         (lit "apa") (lit "balanced") (lit "10") [] in
  (exists value, Joi.validate chatSchema (BObject fields) = Joi.Passed value
                 /\ destructure value = Some r)
  /\ (exists value', Joi.validate chatSchema (BObject (request_body r)) = Joi.Passed value'
                     /\ destructure value' = Some r).
Proof.
  intros fields r.
  assert (H : Joi.validate chatSchema (BObject fields)
              = Joi.Passed
                  [ (lit "question", Joi.VString (lit "What is cognitive behavioural therapy?"));
                    (lit "citationStyle", Joi.VString (lit "apa"));
                    (lit "citationMode", Joi.VString (lit "balanced"));
                    (lit "recency", Joi.VString (lit "10"));
                    (lit "materials", Joi.VArray []) ]) by reflexivity.
  assert (Hr : destructure
                 [ (lit "question", Joi.VString (lit "What is cognitive behavioural therapy?"));
                   (lit "citationStyle", Joi.VString (lit "apa"));
                   (lit "citationMode", Joi.VString (lit "balanced"));
                   (lit "recency", Joi.VString (lit "10"));
                   (lit "materials", Joi.VArray []) ] = Some r) by reflexivity.
  split; [eexists; split; [exact H|exact Hr]|].
  exact (validated_request_stable fields _ r H Hr).
Defined.
